(** * The Qt OpenGL display of mGBA: frame queue, painter and pacing timer

    A shallow embedding of [src/platform/qt/DisplayGL.cpp]: the widget
    [DisplayGL], which runs on the GUI thread, and its worker [PainterGL],
    which owns the frame queue, the free pool of frame buffers and the
    16 ms swap timer.

    Every method is a computation in a state-and-fault monad over one
    world that holds the objects the file touches.  Two objects are shared
    by pointer between the widget and the painter (the [QOpenGLContext]
    and the [VideoProxy]); they live once in the world, so both sides see
    the same object.  Calls that leave the file (backend function
    pointers, the GL context, the core's frame handshake) are appended to
    a trace.  Undefined behaviour of the C++ (writing through a null
    pointer, taking from an empty container, a product that does not fit
    an [int], a copy that leaves a frame buffer or its source) is a
    fault.

    The bodies of [enqueue], [dequeue] and [dequeueAll] are critical
    sections of [m_mutex]; the embedding is sequential, so each of them is
    one atomic computation and the mutex itself carries no state.  Calls
    that the widget makes through [QMetaObject::invokeMethod] go through
    the event queue of the painter's thread, which is part of the world.

    Left out: the shader methods ([shaders], [setShaders], [clearShaders],
    [glTex]) and the destructors.  The product of [m_size] with the device
    pixel ratio in [performDraw] is a floating-point product made on the
    way to the backend; the trace records [m_size]. *)

From Stdlib Require Import Strings.Byte.
From stdpp Require Import base option list gmap.

(** ** Data *)

(** The two threads of interest: the GUI thread, on which the window
    lives, and the thread created by [startDrawing]. *)
Inductive thread := GuiThread | PainterThread.

(** A frame buffer is known by its address, a [nat]; a [uint32_t*] is an
    [option nat], with [None] for [nullptr].  A [QSize] is a pair of [Z]. *)

(** What this file reads from the [CoreController] behind [m_context]:
    the frame dimensions, the [videoFrameWait] flag of the core's sync
    object, and [frameStart], the answer [mCoreSyncWaitFrameStart] gives
    on that sync object (the function itself lives in the core). *)
Record CoreController := {
  screenDimensions : Z * Z;
  videoFrameWait : bool;
  frameStart : bool
}.

(** The fields of [VideoBackend] that the painter assigns directly. *)
Record VideoBackend := {
  vb_filter : bool;
  vb_lockAspectRatio : bool;
  vb_lockIntegerScaling : bool
}.

(** [QOpenGLContext]: validity, whether it is current on the surface, and
    the thread it belongs to. *)
Record QOpenGLContext := {
  gl_valid : bool;
  gl_current : bool;
  gl_thread : thread
}.

(** Calls that leave the file. *)
Inductive event :=
| ev_postFrame (b : nat)            (* m_backend->postFrame(m_backend, b) *)
| ev_drawFrame                      (* m_backend->drawFrame *)
| ev_resized (size : Z * Z)         (* m_backend->resized, before scaling by the pixel ratio *)
| ev_setDimensions (size : Z * Z) (* m_backend->setDimensions *)
| ev_clear                          (* m_backend->clear *)
| ev_swapBuffers                    (* m_gl->swapBuffers(m_surface) *)
| ev_makeCurrent                    (* m_gl->makeCurrent *)
| ev_doneCurrent                    (* m_gl->doneCurrent *)
| ev_memcpy (dst : nat) (n : nat)   (* memcpy(dst, backing, n) *)
| ev_waitFrameStart                 (* mCoreSyncWaitFrameStart *)
| ev_waitFrameEnd                   (* mCoreSyncWaitFrameEnd *)
| ev_paintBegin                     (* m_painter.begin(m_window) *)
| ev_paintEnd                       (* m_painter.end() *)
| ev_paintMessages                  (* m_messagePainter->paint *)
| ev_messageResize (size : Z * Z)   (* messagePainter()->resize *)
| ev_proxyReset                     (* m_videoProxy->reset() *)
| ev_shaderAttach                   (* mGLES2ShaderAttach *)
| ev_backendInit                    (* m_backend->init *)
| ev_interrupt                      (* CoreController::Interrupter constructed *)
| ev_resume                         (* CoreController::Interrupter destroyed *)
| ev_threadExit.                    (* m_drawThread->exit() *)

(** A trace entry: the call, with the free pool and the pending queue
    as they were at the moment of the call. *)
Record call := {
  what : event;
  free_then : list nat;
  queue_then : list (option nat)
}.

(** Slots of the painter that the widget invokes through the event
    queue of the painter's thread. *)
Inductive slot :=
| s_start
| s_draw
| s_forceDraw
| s_lockAspectRatio (lock : bool)
| s_lockIntegerScaling (lock : bool)
| s_filter (f : bool).

(** [PainterGL]. [m_swapTimer] is whether the timer is active;
    [m_messagePainter] and [m_videoProxy] are whether the pointer is set;
    [m_shader] is whether [m_shader.passes] is set; [p_thread] is the
    thread affinity of the object. *)
Record PainterGL := {
  m_queue : list (option nat);
  m_free : list nat;
  m_active : bool;
  m_started : bool;
  m_needsUnlock : bool;
  m_frameReady : bool;
  m_size : Z * Z;
  m_context : option CoreController;
  m_messagePainter : bool;
  m_videoProxy : bool;
  m_swapTimer : bool;
  m_supportsShaders : bool;
  m_shader : bool;
  p_thread : thread
}.

(** [DisplayGL], with the members of its base [Display] that the file
    reads back ([isAspectRatioLocked], [isIntegerScalingLocked],
    [isFiltered], [size]).  [d_context] is [DisplayGL::m_context]. *)
Record DisplayGL := {
  d_drawThread : option thread;
  d_isDrawing : bool;
  d_context : option CoreController;
  d_lockAspectRatio : bool;
  d_lockIntegerScaling : bool;
  d_filter : bool;
  d_size : Z * Z
}.

(** The world: the widget, its painter, the backend, the shared GL
    context, the thread of the shared video proxy, the heap of frame
    buffers ([mem] maps an address to the bytes written so far, [brk] is
    the next fresh address), the event queue of the painter and the
    trace. *)
Record World := {
  display : DisplayGL;
  painter : PainterGL;
  backend : VideoBackend;
  gl : QOpenGLContext;
  proxy_thread : thread;
  mem : gmap nat (list byte);
  brk : nat;
  pending : list slot;
  trace : list call
}.

(** *** Field updates *)

Definition set_m_queue (v : list (option nat)) (p : PainterGL) : PainterGL :=
  {| m_queue := v; m_free := m_free p; m_active := m_active p; m_started := m_started p;
     m_needsUnlock := m_needsUnlock p; m_frameReady := m_frameReady p; m_size := m_size p;
     m_context := m_context p; m_messagePainter := m_messagePainter p;
     m_videoProxy := m_videoProxy p; m_swapTimer := m_swapTimer p;
     m_supportsShaders := m_supportsShaders p; m_shader := m_shader p; p_thread := p_thread p |}.

Definition set_m_free (v : list nat) (p : PainterGL) : PainterGL :=
  {| m_queue := m_queue p; m_free := v; m_active := m_active p; m_started := m_started p;
     m_needsUnlock := m_needsUnlock p; m_frameReady := m_frameReady p; m_size := m_size p;
     m_context := m_context p; m_messagePainter := m_messagePainter p;
     m_videoProxy := m_videoProxy p; m_swapTimer := m_swapTimer p;
     m_supportsShaders := m_supportsShaders p; m_shader := m_shader p; p_thread := p_thread p |}.

Definition set_m_active (v : bool) (p : PainterGL) : PainterGL :=
  {| m_queue := m_queue p; m_free := m_free p; m_active := v; m_started := m_started p;
     m_needsUnlock := m_needsUnlock p; m_frameReady := m_frameReady p; m_size := m_size p;
     m_context := m_context p; m_messagePainter := m_messagePainter p;
     m_videoProxy := m_videoProxy p; m_swapTimer := m_swapTimer p;
     m_supportsShaders := m_supportsShaders p; m_shader := m_shader p; p_thread := p_thread p |}.

Definition set_m_started (v : bool) (p : PainterGL) : PainterGL :=
  {| m_queue := m_queue p; m_free := m_free p; m_active := m_active p; m_started := v;
     m_needsUnlock := m_needsUnlock p; m_frameReady := m_frameReady p; m_size := m_size p;
     m_context := m_context p; m_messagePainter := m_messagePainter p;
     m_videoProxy := m_videoProxy p; m_swapTimer := m_swapTimer p;
     m_supportsShaders := m_supportsShaders p; m_shader := m_shader p; p_thread := p_thread p |}.

Definition set_m_needsUnlock (v : bool) (p : PainterGL) : PainterGL :=
  {| m_queue := m_queue p; m_free := m_free p; m_active := m_active p; m_started := m_started p;
     m_needsUnlock := v; m_frameReady := m_frameReady p; m_size := m_size p;
     m_context := m_context p; m_messagePainter := m_messagePainter p;
     m_videoProxy := m_videoProxy p; m_swapTimer := m_swapTimer p;
     m_supportsShaders := m_supportsShaders p; m_shader := m_shader p; p_thread := p_thread p |}.

Definition set_m_frameReady (v : bool) (p : PainterGL) : PainterGL :=
  {| m_queue := m_queue p; m_free := m_free p; m_active := m_active p; m_started := m_started p;
     m_needsUnlock := m_needsUnlock p; m_frameReady := v; m_size := m_size p;
     m_context := m_context p; m_messagePainter := m_messagePainter p;
     m_videoProxy := m_videoProxy p; m_swapTimer := m_swapTimer p;
     m_supportsShaders := m_supportsShaders p; m_shader := m_shader p; p_thread := p_thread p |}.

Definition set_m_size (v : Z * Z) (p : PainterGL) : PainterGL :=
  {| m_queue := m_queue p; m_free := m_free p; m_active := m_active p; m_started := m_started p;
     m_needsUnlock := m_needsUnlock p; m_frameReady := m_frameReady p; m_size := v;
     m_context := m_context p; m_messagePainter := m_messagePainter p;
     m_videoProxy := m_videoProxy p; m_swapTimer := m_swapTimer p;
     m_supportsShaders := m_supportsShaders p; m_shader := m_shader p; p_thread := p_thread p |}.

Definition set_m_context (v : option CoreController) (p : PainterGL) : PainterGL :=
  {| m_queue := m_queue p; m_free := m_free p; m_active := m_active p; m_started := m_started p;
     m_needsUnlock := m_needsUnlock p; m_frameReady := m_frameReady p; m_size := m_size p;
     m_context := v; m_messagePainter := m_messagePainter p;
     m_videoProxy := m_videoProxy p; m_swapTimer := m_swapTimer p;
     m_supportsShaders := m_supportsShaders p; m_shader := m_shader p; p_thread := p_thread p |}.

Definition set_m_messagePainter (v : bool) (p : PainterGL) : PainterGL :=
  {| m_queue := m_queue p; m_free := m_free p; m_active := m_active p; m_started := m_started p;
     m_needsUnlock := m_needsUnlock p; m_frameReady := m_frameReady p; m_size := m_size p;
     m_context := m_context p; m_messagePainter := v;
     m_videoProxy := m_videoProxy p; m_swapTimer := m_swapTimer p;
     m_supportsShaders := m_supportsShaders p; m_shader := m_shader p; p_thread := p_thread p |}.

Definition set_m_swapTimer (v : bool) (p : PainterGL) : PainterGL :=
  {| m_queue := m_queue p; m_free := m_free p; m_active := m_active p; m_started := m_started p;
     m_needsUnlock := m_needsUnlock p; m_frameReady := m_frameReady p; m_size := m_size p;
     m_context := m_context p; m_messagePainter := m_messagePainter p;
     m_videoProxy := m_videoProxy p; m_swapTimer := v;
     m_supportsShaders := m_supportsShaders p; m_shader := m_shader p; p_thread := p_thread p |}.

Definition set_m_shader (v : bool) (p : PainterGL) : PainterGL :=
  {| m_queue := m_queue p; m_free := m_free p; m_active := m_active p; m_started := m_started p;
     m_needsUnlock := m_needsUnlock p; m_frameReady := m_frameReady p; m_size := m_size p;
     m_context := m_context p; m_messagePainter := m_messagePainter p;
     m_videoProxy := m_videoProxy p; m_swapTimer := m_swapTimer p;
     m_supportsShaders := m_supportsShaders p; m_shader := v; p_thread := p_thread p |}.

Definition set_p_thread (v : thread) (p : PainterGL) : PainterGL :=
  {| m_queue := m_queue p; m_free := m_free p; m_active := m_active p; m_started := m_started p;
     m_needsUnlock := m_needsUnlock p; m_frameReady := m_frameReady p; m_size := m_size p;
     m_context := m_context p; m_messagePainter := m_messagePainter p;
     m_videoProxy := m_videoProxy p; m_swapTimer := m_swapTimer p;
     m_supportsShaders := m_supportsShaders p; m_shader := m_shader p; p_thread := v |}.

Definition set_d_drawThread (v : option thread) (d : DisplayGL) : DisplayGL :=
  {| d_drawThread := v; d_isDrawing := d_isDrawing d; d_context := d_context d;
     d_lockAspectRatio := d_lockAspectRatio d; d_lockIntegerScaling := d_lockIntegerScaling d;
     d_filter := d_filter d; d_size := d_size d |}.

Definition set_d_isDrawing (v : bool) (d : DisplayGL) : DisplayGL :=
  {| d_drawThread := d_drawThread d; d_isDrawing := v; d_context := d_context d;
     d_lockAspectRatio := d_lockAspectRatio d; d_lockIntegerScaling := d_lockIntegerScaling d;
     d_filter := d_filter d; d_size := d_size d |}.

Definition set_d_context (v : option CoreController) (d : DisplayGL) : DisplayGL :=
  {| d_drawThread := d_drawThread d; d_isDrawing := d_isDrawing d; d_context := v;
     d_lockAspectRatio := d_lockAspectRatio d; d_lockIntegerScaling := d_lockIntegerScaling d;
     d_filter := d_filter d; d_size := d_size d |}.

Definition set_d_lockAspectRatio (v : bool) (d : DisplayGL) : DisplayGL :=
  {| d_drawThread := d_drawThread d; d_isDrawing := d_isDrawing d; d_context := d_context d;
     d_lockAspectRatio := v; d_lockIntegerScaling := d_lockIntegerScaling d;
     d_filter := d_filter d; d_size := d_size d |}.

Definition set_d_lockIntegerScaling (v : bool) (d : DisplayGL) : DisplayGL :=
  {| d_drawThread := d_drawThread d; d_isDrawing := d_isDrawing d; d_context := d_context d;
     d_lockAspectRatio := d_lockAspectRatio d; d_lockIntegerScaling := v;
     d_filter := d_filter d; d_size := d_size d |}.

Definition set_d_filter (v : bool) (d : DisplayGL) : DisplayGL :=
  {| d_drawThread := d_drawThread d; d_isDrawing := d_isDrawing d; d_context := d_context d;
     d_lockAspectRatio := d_lockAspectRatio d; d_lockIntegerScaling := d_lockIntegerScaling d;
     d_filter := v; d_size := d_size d |}.

Definition set_d_size (v : Z * Z) (d : DisplayGL) : DisplayGL :=
  {| d_drawThread := d_drawThread d; d_isDrawing := d_isDrawing d; d_context := d_context d;
     d_lockAspectRatio := d_lockAspectRatio d; d_lockIntegerScaling := d_lockIntegerScaling d;
     d_filter := d_filter d; d_size := v |}.

Definition set_gl_valid (v : bool) (g : QOpenGLContext) : QOpenGLContext :=
  {| gl_valid := v; gl_current := gl_current g; gl_thread := gl_thread g |}.

Definition set_gl_current (v : bool) (g : QOpenGLContext) : QOpenGLContext :=
  {| gl_valid := gl_valid g; gl_current := v; gl_thread := gl_thread g |}.

Definition set_gl_thread (v : thread) (g : QOpenGLContext) : QOpenGLContext :=
  {| gl_valid := gl_valid g; gl_current := gl_current g; gl_thread := v |}.

Definition set_vb_filter (v : bool) (b : VideoBackend) : VideoBackend :=
  {| vb_filter := v; vb_lockAspectRatio := vb_lockAspectRatio b;
     vb_lockIntegerScaling := vb_lockIntegerScaling b |}.

Definition set_vb_lockAspectRatio (v : bool) (b : VideoBackend) : VideoBackend :=
  {| vb_filter := vb_filter b; vb_lockAspectRatio := v;
     vb_lockIntegerScaling := vb_lockIntegerScaling b |}.

Definition set_vb_lockIntegerScaling (v : bool) (b : VideoBackend) : VideoBackend :=
  {| vb_filter := vb_filter b; vb_lockAspectRatio := vb_lockAspectRatio b;
     vb_lockIntegerScaling := v |}.

Definition upd_display (f : DisplayGL → DisplayGL) (w : World) : World :=
  {| display := f (display w); painter := painter w; backend := backend w; gl := gl w;
     proxy_thread := proxy_thread w; mem := mem w; brk := brk w; pending := pending w;
     trace := trace w |}.

Definition upd_painter (f : PainterGL → PainterGL) (w : World) : World :=
  {| display := display w; painter := f (painter w); backend := backend w; gl := gl w;
     proxy_thread := proxy_thread w; mem := mem w; brk := brk w; pending := pending w;
     trace := trace w |}.

Definition upd_backend (f : VideoBackend → VideoBackend) (w : World) : World :=
  {| display := display w; painter := painter w; backend := f (backend w); gl := gl w;
     proxy_thread := proxy_thread w; mem := mem w; brk := brk w; pending := pending w;
     trace := trace w |}.

Definition upd_gl (f : QOpenGLContext → QOpenGLContext) (w : World) : World :=
  {| display := display w; painter := painter w; backend := backend w; gl := f (gl w);
     proxy_thread := proxy_thread w; mem := mem w; brk := brk w; pending := pending w;
     trace := trace w |}.

Definition set_proxy_thread (v : thread) (w : World) : World :=
  {| display := display w; painter := painter w; backend := backend w; gl := gl w;
     proxy_thread := v; mem := mem w; brk := brk w; pending := pending w;
     trace := trace w |}.

Definition set_mem (v : gmap nat (list byte)) (w : World) : World :=
  {| display := display w; painter := painter w; backend := backend w; gl := gl w;
     proxy_thread := proxy_thread w; mem := v; brk := brk w; pending := pending w;
     trace := trace w |}.

Definition set_brk (v : nat) (w : World) : World :=
  {| display := display w; painter := painter w; backend := backend w; gl := gl w;
     proxy_thread := proxy_thread w; mem := mem w; brk := v; pending := pending w;
     trace := trace w |}.

Definition set_pending (v : list slot) (w : World) : World :=
  {| display := display w; painter := painter w; backend := backend w; gl := gl w;
     proxy_thread := proxy_thread w; mem := mem w; brk := brk w; pending := v;
     trace := trace w |}.

Definition set_trace (v : list call) (w : World) : World :=
  {| display := display w; painter := painter w; backend := backend w; gl := gl w;
     proxy_thread := proxy_thread w; mem := mem w; brk := brk w; pending := pending w;
     trace := v |}.

(** The updates unfold under [simpl] and [cbn], so that a projection of
    an updated record computes. *)
Arguments set_m_queue _ _ /.
Arguments set_m_free _ _ /.
Arguments set_m_active _ _ /.
Arguments set_m_started _ _ /.
Arguments set_m_needsUnlock _ _ /.
Arguments set_m_frameReady _ _ /.
Arguments set_m_size _ _ /.
Arguments set_m_context _ _ /.
Arguments set_m_messagePainter _ _ /.
Arguments set_m_swapTimer _ _ /.
Arguments set_m_shader _ _ /.
Arguments set_p_thread _ _ /.
Arguments set_d_drawThread _ _ /.
Arguments set_d_isDrawing _ _ /.
Arguments set_d_context _ _ /.
Arguments set_d_lockAspectRatio _ _ /.
Arguments set_d_lockIntegerScaling _ _ /.
Arguments set_d_filter _ _ /.
Arguments set_d_size _ _ /.
Arguments set_gl_valid _ _ /.
Arguments set_gl_current _ _ /.
Arguments set_gl_thread _ _ /.
Arguments set_vb_filter _ _ /.
Arguments set_vb_lockAspectRatio _ _ /.
Arguments set_vb_lockIntegerScaling _ _ /.
Arguments upd_display _ _ /.
Arguments upd_painter _ _ /.
Arguments upd_backend _ _ /.
Arguments upd_gl _ _ /.
Arguments set_proxy_thread _ _ /.
Arguments set_mem _ _ /.
Arguments set_brk _ _ /.
Arguments set_pending _ _ /.
Arguments set_trace _ _ /.

(** ** The monad *)

(** The undefined behaviours the file can run into. *)
Inductive fault :=
| NullDeref        (* a write or a member access through nullptr *)
| EmptyContainer   (* QQueue::dequeue or QList::takeLast on an empty container *)
| IntOverflow      (* a product that does not fit an int *)
| OutOfBounds.     (* memcpy of more bytes than the buffer or the source holds *)

Inductive result (A : Type) :=
| Ok (a : A) (w : World)
| Fault (f : fault).
Arguments Ok {A} a w.
Arguments Fault {A} f.

Definition M (A : Type) : Type := World → result A.

Definition ret {A} (a : A) : M A := λ w, Ok a w.

Definition bind {A B} (c : M A) (k : A → M B) : M B :=
  λ w, match c w with
       | Ok a w' => k a w'
       | Fault f => Fault f
       end.

Declare Scope M_scope.
Delimit Scope M_scope with M.
Bind Scope M_scope with M.
Notation "x ← y ; z" := (bind y (λ x, z))
  (at level 20, y at level 100, z at level 200, only parsing) : M_scope.
Notation "x ;; z" := (bind x (λ _, z))
  (at level 100, z at level 200, only parsing, right associativity) : M_scope.
Notation "m ≫= f" := (bind m f) (at level 60, right associativity) : M_scope.
Open Scope M_scope.

Definition fail {A} (f : fault) : M A := λ _, Fault f.
Definition gets {A} (f : World → A) : M A := λ w, Ok (f w) w.
Definition modify (f : World → World) : M unit := λ w, Ok tt (f w).
Definition when (b : bool) (c : M unit) : M unit := if b then c else ret tt.

(** Reading through a pointer that may be null. *)
Definition deref {A} (o : option A) : M A :=
  match o with
  | Some a => ret a
  | None => fail NullDeref
  end.

(** A call that leaves the file, recorded with the pool and the queue of
    that moment. *)
Definition emit (e : event) : M unit :=
  modify (λ w, set_trace (trace w ++ [{| what := e;
                                         free_then := m_free (painter w);
                                         queue_then := m_queue (painter w) |}]) w).

(** ** The code *)

Section DisplayGL.

(** [BYTES_PER_PIXEL] is a macro of the core's headers, a small positive
    [int] literal. *)
Variable BYTES_PER_PIXEL : nat.

(** *** Containers: [QQueue<uint32_t*> m_queue] and [QList<uint32_t*> m_free] *)

Definition isEmpty {A} (l : list A) : bool :=
  match l with
  | [] => true
  | _ :: _ => false
  end.

Definition queue_isEmpty : M bool := gets (λ w, isEmpty (m_queue (painter w))).

Definition queue_dequeue : M (option nat) :=
  q ← gets (λ w, m_queue (painter w));
  match q with
  | [] => fail EmptyContainer
  | x :: q' => modify (upd_painter (set_m_queue q'));; ret x
  end.

Definition queue_enqueue (x : option nat) : M unit :=
  modify (upd_painter (λ p, set_m_queue (m_queue p ++ [x]) p)).

Definition free_isEmpty : M bool := gets (λ w, isEmpty (m_free (painter w))).

Definition free_takeLast : M nat :=
  f ← gets (λ w, m_free (painter w));
  match last f with
  | None => fail EmptyContainer
  | Some b => modify (upd_painter (set_m_free (removelast f)));; ret b
  end.

Definition free_append (b : nat) : M unit :=
  modify (upd_painter (λ p, set_m_free (m_free p ++ [b]) p)).

(** The bytes of one frame buffer, [new uint32_t[1024 * 2048]]. *)
Definition buffer_bytes : Z := 1024 * 2048 * 4.

(** [new uint32_t[1024 * 2048]]: a fresh address of [buffer_bytes]
    bytes, nothing written yet. *)
Definition new_buffer : M nat :=
  b ← gets brk;
  modify (λ w, set_mem (<[b := []]> (mem w)) (set_brk (S b) w));;
  ret b.

(** [int] is 32 bits wide; a product that leaves its range is undefined
    behaviour. *)
Definition INT_MIN : Z := -2147483648.
Definition INT_MAX : Z := 2147483647.

Definition in_int (z : Z) : bool := (INT_MIN <=? z)%Z && (z <=? INT_MAX)%Z.

(** The product of two [int]s. *)
Definition int_mul (a b : Z) : M Z :=
  if in_int a && in_int b && in_int (a * b) then ret (a * b)%Z
  else fail IntOverflow.

(** [memcpy(dst, src, n)] with [n] an [int] turned into a [size_t]: the
    first [n] bytes of the buffer at [dst] become the first [n] bytes of
    [src].  A negative [n] becomes a size beyond every buffer; a copy of
    more bytes than the buffer holds, or than the source holds, leaves
    the bounds of one of them. *)
Definition memcpy (dst : option nat) (src : list byte) (n : Z) : M unit :=
  match dst with
  | None => fail NullDeref
  | Some b =>
      if (n <? 0)%Z || (buffer_bytes <? n)%Z || (Z.of_nat (length src) <? n)%Z
      then fail OutOfBounds
      else
        emit (ev_memcpy b (Z.to_nat n));;
        modify (λ w, set_mem (alter (λ old, take (Z.to_nat n) src
                                            ++ drop (Z.to_nat n) old) b (mem w)) w)
  end.

(** *** The GL context and the event queue *)

Definition gl_makeCurrent : M unit :=
  emit ev_makeCurrent;; modify (upd_gl (set_gl_current true)).

Definition gl_doneCurrent : M unit :=
  emit ev_doneCurrent;; modify (upd_gl (set_gl_current false)).

(** [QMetaObject::invokeMethod(m_painter, slot)] from another thread,
    [Qt::QueuedConnection] and [QTimer::singleShot(0, ...)]: the call is
    put at the back of the painter's event queue. *)
Definition invokeQueued (s : slot) : M unit :=
  modify (λ w, set_pending (pending w ++ [s]) w).

(** *** PainterGL *)

(** The [swap] function pointer installed in the constructor: start the
    swap timer unless it is running. *)
Definition backend_swap : M unit :=
  active ← gets (λ w, m_swapTimer (painter w));
  when (negb active) (modify (upd_painter (set_m_swapTimer true))).

Fixpoint PainterGL_alloc (n : nat) : M unit :=
  match n with
  | 0 => ret tt
  | S n' => b ← new_buffer; free_append b;; PainterGL_alloc n'
  end.

(** The constructor, for a build with both [BUILD_GL] and [BUILD_GLES2]:
    [majorVersion] and [fbo] are the GL version and whether
    [GL_ARB_framebuffer_object] is among the extensions. *)
Definition PainterGL_ctor (majorVersion : Z) (fbo : bool) : M unit :=
  gl_makeCurrent;;
  modify (upd_painter (λ p,
    {| m_queue := []; m_free := []; m_active := false; m_started := false;
       m_needsUnlock := false; m_frameReady := false; m_size := m_size p;
       m_context := None; m_messagePainter := false; m_videoProxy := true;
       m_swapTimer := false;
       m_supportsShaders := (bool_decide (majorVersion = 2%Z) && fbo)
                            || bool_decide (2 < majorVersion)%Z;
       m_shader := false; p_thread := GuiThread |}));;
  emit ev_backendInit;;
  gl_doneCurrent;;
  modify (upd_backend (set_vb_filter false));;
  modify (upd_backend (set_vb_lockAspectRatio false));;
  PainterGL_alloc 2.

Definition resizeContext : M unit :=
  c ← gets (λ w, m_context (painter w));
  match c with
  | None => ret tt
  | Some c => emit (ev_setDimensions (screenDimensions c))
  end.

Definition setContext (context : option CoreController) : M unit :=
  modify (upd_painter (set_m_context context));;
  resizeContext.

Definition setMessagePainter (messagePainter : bool) : M unit :=
  modify (upd_painter (set_m_messagePainter messagePainter)).

(** [beginNativePainting] and [endNativePainting] bracket the two backend
    calls and change nothing the file reads. *)
Definition performDraw : M unit :=
  size ← gets (λ w, m_size (painter w));
  emit (ev_resized size);;
  emit ev_drawFrame;;
  mp ← gets (λ w, m_messagePainter (painter w));
  when mp (emit ev_paintMessages);;
  modify (upd_painter (set_m_frameReady true)).

Definition forceDraw : M unit :=
  emit ev_paintBegin;;
  performDraw;;
  emit ev_paintEnd;;
  backend_swap.

Definition resize (size : Z * Z) : M unit :=
  modify (upd_painter (set_m_size size));;
  started ← gets (λ w, m_started (painter w));
  active ← gets (λ w, m_active (painter w));
  when (started && negb active) forceDraw.

Definition lockAspectRatio (lock : bool) : M unit :=
  modify (upd_backend (set_vb_lockAspectRatio lock));;
  size ← gets (λ w, m_size (painter w));
  resize size.

Definition lockIntegerScaling (lock : bool) : M unit :=
  modify (upd_backend (set_vb_lockIntegerScaling lock));;
  size ← gets (λ w, m_size (painter w));
  resize size.

Definition PainterGL_filter (f : bool) : M unit :=
  modify (upd_backend (set_vb_filter f));;
  started ← gets (λ w, m_started (painter w));
  active ← gets (λ w, m_active (painter w));
  when (started && negb active) forceDraw.

Definition start : M unit :=
  gl_makeCurrent;;
  ss ← gets (λ w, m_supportsShaders (painter w));
  sh ← gets (λ w, m_shader (painter w));
  when (ss && sh) (emit ev_shaderAttach);;
  modify (upd_painter (set_m_active true));;
  modify (upd_painter (set_m_started true)).

Definition pause : M unit := modify (upd_painter (set_m_active false)).

Definition unpause : M unit := modify (upd_painter (set_m_active true)).

(** The size handed to [memcpy] is
    [size.width() * size.height() * BYTES_PER_PIXEL], two products of
    [int]s made from left to right before the call. *)
Definition enqueue (backing : option (list byte)) : M unit :=
  buffer ← (match backing with
            | Some src =>
                e ← free_isEmpty;
                buffer ← (if e then queue_dequeue
                          else b ← free_takeLast; ret (Some b));
                c ← gets (λ w, m_context (painter w)) ≫= deref;
                let size := screenDimensions c in
                area ← int_mul size.1 size.2;
                n ← int_mul area (Z.of_nat BYTES_PER_PIXEL);
                memcpy buffer src n;;
                ret buffer
            | None => ret None
            end : M (option nat));
  queue_enqueue buffer.

Definition dequeue : M unit :=
  e ← queue_isEmpty;
  if e then ret tt
  else
    buffer ← queue_dequeue;
    match buffer with
    | Some b => emit (ev_postFrame b);; free_append b
    | None => ret tt
    end.

(** The [while (!m_queue.isEmpty())] loop of [dequeueAll]; [fuel] bounds
    the number of iterations and [buffer] is the local variable. *)
Fixpoint dequeueAll_loop (fuel : nat) (buffer : option nat) : M (option nat) :=
  match fuel with
  | 0 => ret buffer
  | S fuel' =>
      e ← queue_isEmpty;
      if e then ret buffer
      else
        buffer' ← queue_dequeue;
        match buffer' with
        | Some b => free_append b
        | None => ret tt
        end;;
        dequeueAll_loop fuel' buffer'
  end.

(** Every iteration takes one entry off the queue, so its length is
    fuel enough. *)
Definition dequeueAll : M unit :=
  n ← gets (λ w, length (m_queue (painter w)));
  buffer ← dequeueAll_loop n None;
  match buffer with
  | Some b => emit (ev_postFrame b)
  | None => ret tt
  end.

Definition swap : M unit :=
  valid ← gets (λ w, gl_valid (gl w));
  if negb valid then ret tt
  else
    ready ← gets (λ w, m_frameReady (painter w));
    when ready (emit ev_swapBuffers;;
                gl_makeCurrent;;
                modify (upd_painter (set_m_frameReady false)));;
    unlock ← gets (λ w, m_needsUnlock (painter w));
    (if unlock
     then _ ← gets (λ w, m_context (painter w)) ≫= deref;
          emit ev_waitFrameEnd;;
          modify (upd_painter (set_m_needsUnlock false))
     else ret tt);;
    e ← queue_isEmpty;
    if negb e then invokeQueued s_draw
    else modify (upd_painter (set_m_swapTimer true)).

(** [frameStart c] is the value of [mCoreSyncWaitFrameStart]; the queue
    is only looked at again when it is false. *)
Definition draw : M unit :=
  e ← queue_isEmpty;
  if e then ret tt
  else
    unlock ← gets (λ w, m_needsUnlock (painter w));
    if unlock then invokeQueued s_draw
    else
      c ← gets (λ w, m_context (painter w)) ≫= deref;
      emit ev_waitFrameStart;;
      e' ← queue_isEmpty;
      if frameStart c || negb e'
      then
        dequeue;;
        forceDraw;;
        c' ← gets (λ w, m_context (painter w)) ≫= deref;
        if videoFrameWait c'
        then modify (upd_painter (set_m_needsUnlock true))
        else emit ev_waitFrameEnd
      else emit ev_waitFrameEnd.

(** [m_surface] is the widget's window, which lives on the GUI thread:
    [m_surface->thread()] is [GuiThread].  The last line goes through
    [m_videoProxy] without the test the first use has. *)
Definition stop : M unit :=
  modify (upd_painter (set_m_active false));;
  modify (upd_painter (set_m_started false));;
  dequeueAll;;
  emit ev_clear;;
  backend_swap;;
  active ← gets (λ w, m_swapTimer (painter w));
  when active (swap;; modify (upd_painter (set_m_swapTimer false)));;
  proxy ← gets (λ w, m_videoProxy (painter w));
  when proxy (emit ev_proxyReset);;
  gl_doneCurrent;;
  modify (upd_gl (set_gl_thread GuiThread));;
  modify (upd_painter (set_m_context None));;
  th ← gets (λ w, gl_thread (gl w));
  modify (upd_painter (set_p_thread th));;
  if proxy then modify (set_proxy_thread th) else fail NullDeref.

(** *** The painter's event loop *)

Definition run_slot (s : slot) : M unit :=
  match s with
  | s_start => start
  | s_draw => draw
  | s_forceDraw => forceDraw
  | s_lockAspectRatio lock => lockAspectRatio lock
  | s_lockIntegerScaling lock => lockIntegerScaling lock
  | s_filter f => PainterGL_filter f
  end.

Fixpoint run_slots (l : list slot) : M unit :=
  match l with
  | [] => ret tt
  | s :: l' => run_slot s;; run_slots l'
  end.

(** One turn of the event loop: the oldest queued call runs. *)
Definition dispatch : M unit :=
  l ← gets pending;
  match l with
  | [] => ret tt
  | s :: l' => modify (set_pending l');; run_slot s
  end.

(** The swap timer fires: it is single-shot, so it stops, and [swap]
    runs. *)
Definition timeout : M unit :=
  active ← gets (λ w, m_swapTimer (painter w));
  if active then modify (upd_painter (set_m_swapTimer false));; swap
  else ret tt.

(** [Qt::BlockingQueuedConnection]: the caller waits until the painter's
    thread has run the calls queued before this one, and then this one;
    what those calls queue in turn comes after. *)
Definition invokeBlocking {A} (c : M A) : M A :=
  l ← gets pending;
  modify (set_pending []);;
  run_slots l;;
  c.

(** *** DisplayGL *)

(** The constructor: the context is made current to read the GL version
    and released again, then the painter is built. *)
Definition DisplayGL_ctor (majorVersion : Z) (fbo : bool) : M unit :=
  gl_makeCurrent;;
  gl_doneCurrent;;
  PainterGL_ctor majorVersion fbo.

(** [if (m_drawThread)]. *)
Definition drawThread_set : M bool :=
  gets (λ w, match d_drawThread (display w) with
             | Some _ => true
             | None => false
             end).

Definition DisplayGL_lockAspectRatio (lock : bool) : M unit :=
  modify (upd_display (set_d_lockAspectRatio lock));;
  t ← drawThread_set;
  when t (invokeQueued (s_lockAspectRatio lock)).

Definition DisplayGL_lockIntegerScaling (lock : bool) : M unit :=
  modify (upd_display (set_d_lockIntegerScaling lock));;
  t ← drawThread_set;
  when t (invokeQueued (s_lockIntegerScaling lock)).

Definition DisplayGL_filter (f : bool) : M unit :=
  modify (upd_display (set_d_filter f));;
  t ← drawThread_set;
  when t (invokeQueued (s_filter f)).

Definition resizePainter : M unit :=
  t ← drawThread_set;
  when t (size ← gets (λ w, d_size (display w));
          invokeBlocking (resize size)).

(** [m_drawThread->start()] makes the new thread run [PainterGL::start]
    first, through the connection to [QThread::started]: [s_start] goes to
    the front of the thread's empty event queue.  The connection of
    [didReset] to [resizeContext] registers a later call of
    [DisplayGL_resizeContext] and does nothing now. *)
Definition startDrawing (controller : option CoreController) : M unit :=
  t ← drawThread_set;
  if t then ret tt
  else
    modify (upd_display (set_d_isDrawing true));;
    setContext controller;;
    setMessagePainter true;;
    modify (upd_display (set_d_context controller));;
    size ← gets (λ w, d_size (display w));
    resize size;;
    modify (upd_display (set_d_drawThread (Some PainterThread)));;
    gl_doneCurrent;;
    modify (upd_gl (set_gl_thread PainterThread));;
    modify (upd_painter (set_p_thread PainterThread));;
    modify (set_proxy_thread PainterThread);;
    invokeQueued s_start;;
    la ← gets (λ w, d_lockAspectRatio (display w));
    DisplayGL_lockAspectRatio la;;
    li ← gets (λ w, d_lockIntegerScaling (display w));
    DisplayGL_lockIntegerScaling li;;
    fi ← gets (λ w, d_filter (display w));
    DisplayGL_filter fi;;
    emit (ev_messageResize size);;
    resizePainter.

Definition stopDrawing : M unit :=
  t ← drawThread_set;
  when t (modify (upd_display (set_d_isDrawing false));;
          emit ev_interrupt;;
          invokeBlocking stop;;
          emit ev_threadExit;;
          modify (upd_display (set_d_drawThread None));;
          gl_makeCurrent;;
          emit ev_resume);;
  modify (upd_display (set_d_context None)).

Definition pauseDrawing : M unit :=
  t ← drawThread_set;
  when t (modify (upd_display (set_d_isDrawing false));;
          emit ev_interrupt;;
          invokeBlocking pause;;
          emit ev_resume).

Definition unpauseDrawing : M unit :=
  t ← drawThread_set;
  when t (modify (upd_display (set_d_isDrawing true));;
          emit ev_interrupt;;
          invokeBlocking unpause;;
          emit ev_resume).

Definition DisplayGL_forceDraw : M unit :=
  t ← drawThread_set;
  when t (invokeQueued s_forceDraw).

(** [drawContext] is what [m_context->drawContext()] returns: the
    core's finished frame, or nullptr. *)
Definition framePosted (drawContext : option (list byte)) : M unit :=
  t ← drawThread_set;
  when t (_ ← gets (λ w, d_context (display w)) ≫= deref;
          enqueue drawContext;;
          invokeQueued s_draw).

Definition DisplayGL_resizeContext : M unit :=
  t ← drawThread_set;
  when t (modify (upd_display (set_d_isDrawing false));;
          emit ev_interrupt;;
          invokeBlocking resizeContext;;
          emit ev_resume).

(** [size] is the new size of the widget. *)
Definition resizeEvent (size : Z * Z) : M unit :=
  modify (upd_display (set_d_size size));;
  resizePainter.

(** *** Runs *)

(** The platform loses the GL context: from then on [m_gl->isValid()] is
    false. *)
Definition contextLost : M unit := modify (upd_gl (set_gl_valid false)).

(** What can happen to a display: a call of the widget from the GUI
    thread, a turn of the painter's event loop, the swap timer firing,
    the loss of the GL context, or a method of the painter called on its
    own. *)
Inductive op :=
| o_startDrawing (controller : option CoreController)
| o_stopDrawing
| o_pauseDrawing
| o_unpauseDrawing
| o_forceDraw
| o_lockAspectRatio (lock : bool)
| o_lockIntegerScaling (lock : bool)
| o_filter (f : bool)
| o_framePosted (drawContext : option (list byte))
| o_resizeContext
| o_resizeEvent (size : Z * Z)
| o_dispatch
| o_timeout
| o_contextLost
| p_setContext (context : option CoreController)
| p_resize (size : Z * Z)
| p_start
| p_draw
| p_forceDraw
| p_stop
| p_pause
| p_unpause
| p_swap
| p_enqueue (backing : option (list byte))
| p_dequeue
| p_dequeueAll.

Definition run_op (o : op) : M unit :=
  match o with
  | o_startDrawing controller => startDrawing controller
  | o_stopDrawing => stopDrawing
  | o_pauseDrawing => pauseDrawing
  | o_unpauseDrawing => unpauseDrawing
  | o_forceDraw => DisplayGL_forceDraw
  | o_lockAspectRatio lock => DisplayGL_lockAspectRatio lock
  | o_lockIntegerScaling lock => DisplayGL_lockIntegerScaling lock
  | o_filter f => DisplayGL_filter f
  | o_framePosted drawContext => framePosted drawContext
  | o_resizeContext => DisplayGL_resizeContext
  | o_resizeEvent size => resizeEvent size
  | o_dispatch => dispatch
  | o_timeout => timeout
  | o_contextLost => contextLost
  | p_setContext context => setContext context
  | p_resize size => resize size
  | p_start => start
  | p_draw => draw
  | p_forceDraw => forceDraw
  | p_stop => stop
  | p_pause => pause
  | p_unpause => unpause
  | p_swap => swap
  | p_enqueue backing => enqueue backing
  | p_dequeue => dequeue
  | p_dequeueAll => dequeueAll
  end.

Fixpoint run_ops (l : list op) : M unit :=
  match l with
  | [] => ret tt
  | o :: l' => run_op o;; run_ops l'
  end.

(** The worlds a display can be in: built by the constructor from a
    world in which nothing is allocated and nothing has happened, and
    then taken through any run that does not fault. *)
Definition blank (w : World) : Prop :=
  mem w = ∅ ∧ pending w = [] ∧ trace w = [] ∧
  gl_current (gl w) = false ∧ gl_thread (gl w) = GuiThread ∧
  proxy_thread w = GuiThread ∧
  d_drawThread (display w) = None ∧ d_context (display w) = None ∧
  d_isDrawing (display w) = false.

Inductive reachable : World → Prop :=
| reachable_ctor w0 majorVersion fbo w :
    blank w0 →
    DisplayGL_ctor majorVersion fbo w0 = Ok tt w →
    reachable w
| reachable_step w o w' :
    reachable w →
    run_op o w = Ok tt w' →
    reachable w'.

(** ** The vocabulary of the statements *)


(** The buffers behind the entries of a queue: the null entries carry
    none. *)
Definition nonnull (q : list (option nat)) : list nat := omap id q.

(** The buffers the painter holds: the free pool and the pending queue. *)
Definition pool (w : World) : list nat :=
  m_free (painter w) ++ nonnull (m_queue (painter w)).

(** The calls an operation added to the trace. *)
Definition new_calls (w w' : World) : list call :=
  drop (length (trace w)) (trace w').
Arguments new_calls : simpl never.

Definition snapshot (e : event) (w : World) : call :=
  {| what := e; free_then := m_free (painter w); queue_then := m_queue (painter w) |}.

(** The entry the loop leaves in its local variable: the last one of the
    queue, or the initial value when the queue is empty. *)
Definition last_entry (q : list (option nat)) (buffer : option nat) : option nat :=
  default buffer (last q).

Definition drained (w : World) : World :=
  upd_painter (λ p, set_m_free (m_free p ++ nonnull (m_queue p)) (set_m_queue [] p)) w.

(** The world after [postFrame] has been called on the buffer left in
    the local variable, if there is one. *)
Definition posted (buffer : option nat) (w : World) : World :=
  match buffer with
  | Some b => set_trace (trace w ++ [snapshot (ev_postFrame b) w]) w
  | None => w
  end.

(** The world in which [dequeue] calls [postFrame]: the entry has left
    the queue and has not yet joined the free pool. *)
Definition popped (q : list (option nat)) (w : World) : World :=
  upd_painter (set_m_queue q) w.

(** The number of bytes [enqueue] copies for a frame of the core [c]:
    as the [int] the code computes, and as a length. *)
Definition frame_size (c : CoreController) : Z :=
  (screenDimensions c).1 * (screenDimensions c).2 * Z.of_nat BYTES_PER_PIXEL.

Definition frame_bytes (c : CoreController) : nat := Z.to_nat (frame_size c).

(** A frame of the core [c] at [src] can be copied: its width, its
    height, their product, the bytes per pixel and the size in bytes are
    [int]s, and the size is not negative and no larger than a frame
    buffer nor than what [src] holds. *)
Definition frame_fits (c : CoreController) (src : list byte) : bool :=
  in_int (screenDimensions c).1 &&
  in_int (screenDimensions c).2 &&
  in_int ((screenDimensions c).1 * (screenDimensions c).2) &&
  in_int (Z.of_nat BYTES_PER_PIXEL) &&
  in_int (frame_size c) &&
  (0 <=? frame_size c)%Z &&
  (frame_size c <=? buffer_bytes)%Z &&
  (frame_size c <=? Z.of_nat (length src))%Z.

(** The world after [memcpy] into [b] and the append of [b] to the
    queue, from the world [w] in which [b] has been taken. *)
Definition copied (b : nat) (src : list byte) (n : nat) (w : World) : World :=
  upd_painter (λ p, set_m_queue (m_queue p ++ [Some b]) p)
    (set_mem (alter (λ old, take n src ++ drop n old) b (mem w))
       (set_trace (trace w ++ [snapshot (ev_memcpy b n) w]) w)).

(** [w'] holds the buffers of [w]: the free pool and the queue together
    hold the same buffers, and the heap has neither grown nor moved. *)
Definition same_buffers (w w' : World) : Prop :=
  pool w' ≡ₚ pool w ∧ brk w' = brk w ∧ dom (mem w') = dom (mem w).

(** A computation is steady when it neither allocates nor loses a
    buffer, whatever else it does. *)
Definition steady {A} (c : M A) : Prop :=
  ∀ w a w', c w = Ok a w' → same_buffers w w'.

(** The painter holds two buffers at consecutive addresses, and the heap
    holds nothing else. *)
Definition two_buffers (w : World) : Prop :=
  ∃ a, pool w ≡ₚ [a; S a] ∧ brk w = S (S a) ∧ dom (mem w) = {[a; S a]}.

(** The three steps of [swap], as the specification words them: a frame
    that is ready is presented and the flag is cleared; a handshake that
    is held is released; a draw is queued when frames are pending, and
    the timer is started again when none is. *)
Definition presented (w : World) : World :=
  if m_frameReady (painter w)
  then upd_painter (set_m_frameReady false)
         (upd_gl (set_gl_current true)
            (set_trace (trace w ++ [snapshot ev_swapBuffers w; snapshot ev_makeCurrent w]) w))
  else w.

Definition released (w : World) : World :=
  if m_needsUnlock (painter w)
  then upd_painter (set_m_needsUnlock false)
         (set_trace (trace w ++ [snapshot ev_waitFrameEnd w]) w)
  else w.

Definition rescheduled (w : World) : World :=
  if isEmpty (m_queue (painter w))
  then upd_painter (set_m_swapTimer true) w
  else set_pending (pending w ++ [s_draw]) w.

#[global] Instance event_eq_dec : EqDecision event.
Proof. solve_decision. Defined.

(** How many times an operation called the backend's [drawFrame]. *)
Definition drawFrames (w w' : World) : nat :=
  length (filter (λ c, what c = ev_drawFrame) (new_calls w w')).

(** Build the display on [w0] and put it through the run [l]. *)
Definition boot (majorVersion : Z) (fbo : bool) (l : list op) : M unit :=
  DisplayGL_ctor majorVersion fbo;; run_ops l.

(** *** Sentences as the specification words them *)

(** [dequeueAll] submits exactly the last non-null buffer of the queue. *)
Definition posts_last_nonnull (w : World) : Prop :=
  ∃ w', dequeueAll w = Ok tt w' ∧
        map what (new_calls w w') =
          match last (nonnull (m_queue (painter w))) with
          | Some b => [ev_postFrame b]
          | None => []
          end.

(** A buffer handed to [postFrame] by [dequeueAll] is at that moment
    neither in the free pool nor in the pending queue. *)
Definition posts_unowned_buffer (w : World) : Prop :=
  ∀ w' c b,
    dequeueAll w = Ok tt w' →
    c ∈ new_calls w w' → what c = ev_postFrame b →
    (b ∉ free_then c) ∧ (Some b ∉ queue_then c).

(** [enqueue] of the frame [src] takes a buffer, the last of the free
    pool or else the front of the queue, copies the frame into it with
    one [memcpy] and appends it to the queue. *)
Definition takes_copies_appends (src : list byte) (w : World) : Prop :=
  ∃ w' b n data,
    enqueue (Some src) w = Ok tt w' ∧
    (if isEmpty (m_free (painter w))
     then head (m_queue (painter w)) = Some (Some b)
     else last (m_free (painter w)) = Some b) ∧
    map what (new_calls w w') = [ev_memcpy b n] ∧
    mem w' !! b = Some data ∧ take n data = take n src ∧
    last (m_queue (painter w')) = Some (Some b).

(** A [stop] in the world [w1], which a [stop] has left, is a no-op: it
    returns [w1], the calls made so far included. *)
Definition second_stop_is_noop (w1 : World) : Prop := stop w1 = Ok tt w1.

(** While the painter is paused, [draw] calls no [drawFrame]. *)
Definition pause_gates_draw (w : World) : Prop :=
  m_active (painter w) = false →
  ∀ w', draw w = Ok tt w' → drawFrames w w' = 0.

(** On every expiry [swap] presents, releases and reschedules. *)
Definition swap_on_every_expiry (w : World) : Prop :=
  swap w = Ok tt (rescheduled (released (presented w))).

(** *** More vocabulary: counting calls, and what a run keeps *)

(** How many of the calls [l] are the call [e]. *)
Definition count_calls (e : event) (l : list call) : nat :=
  length (filter (λ c, what c = e) l).
Arguments count_calls : simpl never.

(** The buffers handed to [postFrame] by the calls [l], in order. *)
Definition posted_buffers (l : list call) : list nat :=
  omap (λ c, match what c with
             | ev_postFrame b => Some b
             | _ => None
             end) l.

(** The handshake with the core: every [mCoreSyncWaitFrameStart] has
    been answered by a [mCoreSyncWaitFrameEnd], except the one the
    painter still holds when [m_needsUnlock] is set. *)
Definition handshake_balanced (w : World) : Prop :=
  count_calls ev_waitFrameStart (trace w) =
  count_calls ev_waitFrameEnd (trace w) + (if m_needsUnlock (painter w) then 1 else 0).

(** The GL context, the painter and the video proxy belong to one
    thread. *)
Definition same_thread (w : World) : Prop :=
  gl_thread (gl w) = p_thread (painter w) ∧ proxy_thread w = p_thread (painter w).

(** A computation keeps [I] when it takes worlds in [I] to worlds in
    [I]. *)
Definition keeps (I : World → Prop) {A} (c : M A) : Prop :=
  ∀ w a w', I w → c w = Ok a w' → I w'.

(** How many [drawFrame] calls a change of size, of a lock or of the
    filter forces: one when the painter is started and paused, none
    otherwise. *)
Definition forced_redraws (w : World) : nat :=
  if m_started (painter w) && negb (m_active (painter w)) then 1 else 0.

(** The buffer behind a queue entry, as a list. *)
Definition buffer_of (x : option nat) : list nat :=
  match x with
  | Some b => [b]
  | None => []
  end.

(** *** Where the buffers are when a call is made *)

(** The buffers the painter held in its two containers when the call [c]
    was made. *)
Definition held_then (c : call) : list nat := free_then c ++ nonnull (queue_then c).

(** The call [c] is sound for the buffers [heap]: the containers held
    each buffer at most once and only buffers of [heap]; a buffer handed
    to [postFrame] is one of [heap] and is not in the queue; a buffer
    [memcpy] writes to is one of [heap] and in neither container. *)
Definition sound_call (heap : gset nat) (c : call) : Prop :=
  NoDup (held_then c) ∧
  (∀ b, b ∈ held_then c → b ∈ heap) ∧
  (∀ b, what c = ev_postFrame b → b ∈ heap ∧ Some b ∉ queue_then c) ∧
  (∀ b n, what c = ev_memcpy b n → b ∈ heap ∧ b ∉ held_then c).

(** The world [w] is sound for the buffers [heap] since the [n]-th
    call: so are the containers now, and so was every call made after the
    first [n]. *)
Definition sound_buffers (heap : gset nat) (n : nat) (w : World) : Prop :=
  NoDup (pool w) ∧ (∀ b, b ∈ pool w → b ∈ heap) ∧
  n ≤ length (trace w) ∧ Forall (sound_call heap) (drop n (trace w)).



(** The threads of the GL context, of the painter and of the video
    proxy. *)
Definition threads (w : World) : thread * thread * thread :=
  (gl_thread (gl w), p_thread (painter w), proxy_thread w).

(** The operations that contain a [moveToThread]. *)
Definition moves_threads (o : op) : bool :=
  match o with
  | o_startDrawing _ | o_stopDrawing | p_stop => true
  | _ => false
  end.

(** *** Worlds to run the code on *)

(** A world in which nothing is built yet. *)
Definition powered_off : World :=
  {| display := {| d_drawThread := None; d_isDrawing := false; d_context := None;
                   d_lockAspectRatio := false; d_lockIntegerScaling := false;
                   d_filter := false; d_size := (480, 320)%Z |};
     painter := {| m_queue := []; m_free := []; m_active := false; m_started := false;
                   m_needsUnlock := false; m_frameReady := false; m_size := (0, 0)%Z;
                   m_context := None; m_messagePainter := false; m_videoProxy := false;
                   m_swapTimer := false; m_supportsShaders := false; m_shader := false;
                   p_thread := GuiThread |};
     backend := {| vb_filter := false; vb_lockAspectRatio := false;
                   vb_lockIntegerScaling := false |};
     gl := {| gl_valid := true; gl_current := false; gl_thread := GuiThread |};
     proxy_thread := GuiThread; mem := ∅; brk := 1; pending := []; trace := [] |}.

(** A core with frames of two pixels by one; [wait] is its
    [videoFrameWait]. *)
Definition tiny (wait : bool) : CoreController :=
  {| screenDimensions := (2, 1)%Z; videoFrameWait := wait; frameStart := false |}.

Definition pixels : list byte :=
  [x01; x02; x03; x04; x05; x06; x07; x08].

Definition world_of (r : result unit) : World :=
  match r with
  | Ok _ w => w
  | Fault _ => powered_off
  end.

(** Drawing has started and one frame has been posted. *)
Definition one_pending : list op :=
  [o_startDrawing (Some (tiny false)); o_framePosted (Some pixels)].

(** Drawing has started, a frame and then a null frame have been
    posted. *)
Definition frame_then_null : list op :=
  [o_startDrawing (Some (tiny false)); o_framePosted (Some pixels); o_framePosted None].

(** Drawing has started and both buffers are queued. *)
Definition both_pending : list op :=
  [o_startDrawing (Some (tiny false)); o_framePosted (Some pixels);
   o_framePosted (Some pixels)].

(** Drawing has started and was paused, and a frame has been posted. *)
Definition paused_with_frame : list op :=
  [o_startDrawing (Some (tiny false)); o_pauseDrawing; o_framePosted (Some pixels)].

(** Drawing has started, a frame has been posted and drawn, with a core
    that keeps the handshake. *)
Definition frame_drawn : list op :=
  [o_startDrawing (Some (tiny true)); o_framePosted (Some pixels); o_dispatch].

(** The same, and then the GL context is lost. *)
Definition drawn_then_lost : list op :=
  frame_drawn ++ [o_contextLost].

(** Drawing has started; a null frame and then two frames have been
    posted, and the painter's thread has not run in between. *)
Definition null_then_two : list op :=
  [o_startDrawing (Some (tiny false)); o_framePosted None; o_framePosted (Some pixels);
   o_framePosted (Some pixels)].

Definition w_one_pending : World := world_of (boot 3 true one_pending powered_off).
Definition w_frame_then_null : World :=
  world_of (boot 3 true frame_then_null powered_off).
Definition w_both_pending : World := world_of (boot 3 true both_pending powered_off).
Definition w_paused : World := world_of (boot 3 true paused_with_frame powered_off).
Definition w_frame_drawn : World := world_of (boot 3 true frame_drawn powered_off).
Definition w_context_lost : World :=
  world_of (boot 3 true drawn_then_lost powered_off).
Definition w_null_pending : World :=
  world_of (boot 3 true [o_startDrawing (Some (tiny false)); o_framePosted None]
              powered_off).
Definition w_null_then_two : World :=
  world_of (boot 3 true null_then_two powered_off).
Definition w_stopped : World := world_of (stopDrawing w_one_pending).
Definition w_painter_stopped : World := world_of (stop w_one_pending).
Definition w_paused_more : World := world_of (enqueue (Some pixels) w_paused).

(** Runs and worlds for the further properties. *)

(** A core whose frames, of 16 MiB, are larger than a frame buffer, and
    a core whose frames have 2^31 pixels. *)
Definition tall : CoreController :=
  {| screenDimensions := (2048, 2048)%Z; videoFrameWait := false; frameStart := false |}.

Definition wide : CoreController :=
  {| screenDimensions := (65536, 32768)%Z;
     videoFrameWait := false; frameStart := false |}.

Definition w_tall : World :=
  world_of (boot 3 true [o_startDrawing (Some tall)] powered_off).

Definition w_wide : World :=
  world_of (boot 3 true [o_startDrawing (Some wide)] powered_off).

Definition pixels' : list byte :=
  [x11; x12; x13; x14; x15; x16; x17; x18].

Definition w_built : World := world_of (boot 3 true [] powered_off).
Definition w_started : World :=
  world_of (boot 3 true [o_startDrawing (Some (tiny false))] powered_off).

(** A frame has been drawn with the handshake held, and another frame
    has been enqueued. *)
Definition drawn_then_frame : list op :=
  frame_drawn ++ [p_enqueue (Some pixels')].

Definition w_held : World := world_of (boot 3 true drawn_then_frame powered_off).

(** ** Properties *)

Ltac unfold_M :=
  unfold when, emit, gets, modify, fail, deref, bind, ret in *.

Ltac destruct_world w :=
  let d := fresh "d" in
  let p := fresh "p" in
  destruct w as [d p ? ? ? ? ? ? ?]; destruct p; destruct d.

Lemma nonnull_app q1 q2 : nonnull (q1 ++ q2) = nonnull q1 ++ nonnull q2.
Proof. unfold nonnull. apply omap_app. Qed.

Lemma elem_of_nonnull b q : b ∈ nonnull q ↔ Some b ∈ q.
Proof.
  unfold nonnull. rewrite list_elem_of_omap. split.
  - intros [[x|] [Hin Hx]]; simpl in Hx; congruence.
  - intros Hin. exists (Some b). auto.
Qed.

(** *** The drain loop *)

Lemma last_entry_cons x q buffer : last_entry (x :: q) buffer = last_entry q x.
Proof. unfold last_entry. rewrite last_cons. destruct (last q); reflexivity. Qed.

Lemma dequeueAll_loop_spec q :
  ∀ fuel buffer w,
    m_queue (painter w) = q →
    length q ≤ fuel →
    dequeueAll_loop fuel buffer w = Ok (last_entry q buffer) (drained w).
Proof.
  induction q as [|x q IH]; intros fuel buffer w Hq Hfuel.
  - destruct_world w; simpl in Hq; subst.
    destruct fuel; unfold drained; cbn; rewrite app_nil_r; reflexivity.
  - destruct fuel as [|fuel]; [simpl in Hfuel; lia|].
    simpl in Hfuel.
    destruct_world w; simpl in Hq; subst.
    cbn [dequeueAll_loop]. unfold queue_isEmpty, queue_dequeue, free_append. unfold_M. cbn.
    destruct x as [b|]; cbn.
    + rewrite IH; [|reflexivity|lia].
      rewrite last_entry_cons. unfold drained; cbn.
      rewrite <- app_assoc. reflexivity.
    + rewrite IH; [|reflexivity|lia].
      rewrite last_entry_cons. reflexivity.
Qed.

(** *** What the three queue operations compute *)

Lemma dequeueAll_spec w :
  dequeueAll w = Ok tt (posted (last_entry (m_queue (painter w)) None) (drained w)).
Proof.
  unfold dequeueAll. unfold_M.
  rewrite (dequeueAll_loop_spec (m_queue (painter w))); [|reflexivity|lia].
  destruct (last_entry _ _); reflexivity.
Qed.

Lemma dequeue_nil w :
  m_queue (painter w) = [] → dequeue w = Ok tt w.
Proof.
  intros Hq. unfold dequeue, queue_isEmpty. unfold_M. rewrite Hq. reflexivity.
Qed.

Lemma dequeue_null w q :
  m_queue (painter w) = None :: q →
  dequeue w = Ok tt (upd_painter (set_m_queue q) w).
Proof.
  intros Hq. unfold dequeue, queue_isEmpty, queue_dequeue. unfold_M.
  rewrite Hq. cbn. rewrite Hq. reflexivity.
Qed.

Lemma dequeue_buffer w b q :
  m_queue (painter w) = Some b :: q →
  dequeue w = Ok tt (upd_painter (λ p, set_m_free (m_free p ++ [b]) p)
                       (posted (Some b) (popped q w))).
Proof.
  intros Hq. unfold dequeue, queue_isEmpty, queue_dequeue, free_append. unfold_M.
  rewrite Hq. cbn. rewrite Hq. reflexivity.
Qed.

Lemma isEmpty_snoc {A} (l : list A) x : isEmpty (l ++ [x]) = false.
Proof. destruct l; reflexivity. Qed.

Lemma snoc_cases {A} (l : list A) : l = [] ∨ ∃ f b, l = f ++ [b].
Proof. induction l using rev_ind; eauto. Qed.

Lemma enqueue_null w :
  enqueue None w = Ok tt (upd_painter (λ p, set_m_queue (m_queue p ++ [None]) p) w).
Proof. reflexivity. Qed.

(** The byte count of a frame that fits: both products are [int]s and
    the copy stays inside the buffer and the source. *)
Lemma frame_fits_inv c src :
  frame_fits c src = true →
  let width := (screenDimensions c).1 in
  let height := (screenDimensions c).2 in
  (in_int width && in_int height && in_int (width * height) = true) ∧
  (in_int (width * height) && in_int (Z.of_nat BYTES_PER_PIXEL)
   && in_int (width * height * Z.of_nat BYTES_PER_PIXEL) = true) ∧
  ((frame_size c <? 0)%Z || (buffer_bytes <? frame_size c)%Z
   || (Z.of_nat (length src) <? frame_size c)%Z = false).
Proof.
  unfold frame_fits. intros H.
  do 7 (apply andb_prop in H as [H ?]).
  repeat match goal with H : (_ <=? _)%Z = true |- _ => apply Z.leb_le in H end.
  cbv zeta. split_and!.
  - repeat match goal with
           | H : in_int ?x = true |- context [in_int ?x] => rewrite H
           end. reflexivity.
  - unfold frame_size in *.
    repeat match goal with
           | H : in_int ?x = true |- context [in_int ?x] => rewrite H
           end. reflexivity.
  - rewrite !(proj2 (Z.ltb_ge _ _)) by lia. reflexivity.
Qed.

(** What the three statements of the copy do from a world [w] with a
    buffer [b] taken: the two products and the [memcpy]. *)
Lemma copy_frame_fits c src b w :
  frame_fits c src = true →
  (area ← int_mul (screenDimensions c).1 (screenDimensions c).2;
   n ← int_mul area (Z.of_nat BYTES_PER_PIXEL);
   memcpy (Some b) src n)%M w =
  Ok tt (set_mem (alter (λ old, take (frame_bytes c) src ++ drop (frame_bytes c) old)
                    b (mem w))
           (set_trace (trace w ++ [snapshot (ev_memcpy b (frame_bytes c)) w]) w)).
Proof.
  intros H. apply frame_fits_inv in H as (H1 & H2 & H3). cbv zeta in *.
  unfold bind at 1. unfold int_mul at 1. rewrite H1.
  unfold bind at 1. unfold ret at 1. unfold int_mul at 1. rewrite H2.
  unfold ret at 1. fold (frame_size c).
  unfold memcpy. rewrite H3. reflexivity.
Qed.

Lemma copy_frame_unfit c src b w :
  frame_fits c src = false →
  ∃ f,
    (area ← int_mul (screenDimensions c).1 (screenDimensions c).2;
     n ← int_mul area (Z.of_nat BYTES_PER_PIXEL);
     memcpy (Some b) src n)%M w = Fault f.
Proof.
  intros H.
  unfold bind at 1. unfold int_mul at 1.
  match goal with |- context [if ?t then _ else _] => destruct t eqn:H1 end; [|eauto].
  unfold bind at 1. unfold ret at 1. unfold int_mul at 1.
  match goal with |- context [if ?t then _ else _] => destruct t eqn:H2 end; [|eauto].
  unfold ret at 1. fold (frame_size c). unfold memcpy.
  match goal with |- context [if ?t then _ else _] => destruct t eqn:H3 end; [eauto|].
  exfalso. unfold frame_fits in H.
  do 2 (apply andb_prop in H1 as [H1 ?]).
  do 2 (apply andb_prop in H2 as [H2 ?]).
  apply orb_false_elim in H3 as [H3 ?]. apply orb_false_elim in H3 as [? ?].
  repeat match goal with H : (_ <? _)%Z = false |- _ => apply Z.ltb_ge in H end.
  fold (frame_size c) in *.
  repeat match goal with H : in_int _ = true |- _ => rewrite H in * end.
  rewrite !(proj2 (Z.leb_le _ _)) in H by lia. discriminate.
Qed.

Lemma bind_assoc {A B C} (m : M A) (k : A → M B) (h : B → M C) w :
  ((m ≫= k) ≫= h)%M w = (m ≫= (λ a, k a ≫= h))%M w.
Proof. unfold bind. destruct (m w); reflexivity. Qed.

(** [enqueue] with a frame, once the buffer is chosen. *)
Lemma enqueue_unfold src w :
  enqueue (Some src) w =
    (e ← free_isEmpty;
     buffer ← (if e then queue_dequeue else b ← free_takeLast; ret (Some b));
     c ← gets (λ w, m_context (painter w)) ≫= deref;
     r ← (area ← int_mul (screenDimensions c).1 (screenDimensions c).2;
          n ← int_mul area (Z.of_nat BYTES_PER_PIXEL);
          memcpy buffer src n);
     queue_enqueue buffer)%M w.
Proof.
  unfold enqueue, bind, ret.
  repeat match goal with
         | |- context [if ?e then _ else _] => is_var e; destruct e
         | |- context [match ?x with Ok _ _ => _ | Fault _ => _ end] =>
             lazymatch x with
             | context [match _ with Ok _ _ => _ | Fault _ => _ end] => fail
             | _ => destruct x as [? ?|]; try reflexivity
             end
         end.
Qed.

Lemma bind_Ok {A B} (m : M A) (k : A → M B) w a w' :
  m w = Ok a w' → (m ≫= k)%M w = k a w'.
Proof. intros H. unfold bind. rewrite H. reflexivity. Qed.

Lemma enqueue_from_free w src f b c :
  m_free (painter w) = f ++ [b] →
  m_context (painter w) = Some c →
  frame_fits c src = true →
  enqueue (Some src) w =
    Ok tt (copied b src (frame_bytes c) (upd_painter (set_m_free f) w)).
Proof.
  intros Hf Hc Hfit. rewrite enqueue_unfold.
  erewrite bind_Ok by (unfold free_isEmpty, gets; rewrite Hf, isEmpty_snoc; reflexivity).
  erewrite bind_Ok
    by (unfold free_takeLast, when; unfold_M;
        repeat (cbn; rewrite ?Hf, ?isEmpty_snoc, ?last_snoc, ?removelast_last);
        reflexivity).
  erewrite bind_Ok by (unfold_M; cbn; rewrite Hc; reflexivity).
  erewrite bind_Ok by (apply copy_frame_fits; assumption).
  unfold copied, queue_enqueue. unfold_M.
  repeat (cbn; rewrite ?Hf, ?Hq, ?Hc). reflexivity.
Qed.

Lemma enqueue_from_queue w src b q c :
  m_free (painter w) = [] →
  m_queue (painter w) = Some b :: q →
  m_context (painter w) = Some c →
  frame_fits c src = true →
  enqueue (Some src) w =
    Ok tt (copied b src (frame_bytes c) (upd_painter (set_m_queue q) w)).
Proof.
  intros Hf Hq Hc Hfit. rewrite enqueue_unfold.
  erewrite bind_Ok by (unfold free_isEmpty, gets; rewrite Hf; reflexivity).
  erewrite bind_Ok by (unfold queue_dequeue; unfold_M; repeat (cbn; rewrite ?Hq); reflexivity).
  erewrite bind_Ok by (unfold_M; cbn; rewrite Hc; reflexivity).
  erewrite bind_Ok by (apply copy_frame_fits; assumption).
  unfold copied, queue_enqueue. unfold_M.
  repeat (cbn; rewrite ?Hf, ?Hq, ?Hc). reflexivity.
Qed.

(** The ways [enqueue] goes wrong with a frame to copy. *)
Lemma enqueue_nothing_to_take w src :
  m_free (painter w) = [] →
  m_queue (painter w) = [] →
  enqueue (Some src) w = Fault EmptyContainer.
Proof.
  intros Hf Hq.
  unfold enqueue, free_isEmpty, queue_dequeue. unfold_M.
  repeat (cbn; rewrite ?Hf, ?Hq). reflexivity.
Qed.

Lemma enqueue_no_context w src :
  m_context (painter w) = None →
  ∃ f, enqueue (Some src) w = Fault f.
Proof.
  intros Hc.
  unfold enqueue, free_isEmpty, free_takeLast, queue_dequeue, queue_enqueue, memcpy.
  unfold_M.
  destruct (snoc_cases (m_free (painter w))) as [Hf|(f & b & Hf)]; rewrite Hf.
  - cbn. destruct (m_queue (painter w)) as [|x q]; [eauto|].
    cbn. rewrite Hc. eauto.
  - repeat (cbn; rewrite ?Hf, ?Hc, ?isEmpty_snoc, ?last_snoc, ?removelast_last). eauto.
Qed.

Lemma bind_Fault {A B} (m : M A) (k : A → M B) w f :
  m w = Fault f → (m ≫= k)%M w = Fault f.
Proof. intros H. unfold bind. rewrite H. reflexivity. Qed.

Lemma copy_to_null c src w :
  ∃ f,
    (area ← int_mul (screenDimensions c).1 (screenDimensions c).2;
     n ← int_mul area (Z.of_nat BYTES_PER_PIXEL);
     memcpy None src n)%M w = Fault f.
Proof.
  unfold bind at 1. unfold int_mul at 1.
  match goal with |- context [if ?t then _ else _] => destruct t end; [|eauto].
  unfold bind at 1. unfold ret at 1. unfold int_mul at 1.
  match goal with |- context [if ?t then _ else _] => destruct t end; eauto.
Qed.

Lemma enqueue_unfit w src c :
  m_context (painter w) = Some c →
  frame_fits c src = false →
  ∃ f, enqueue (Some src) w = Fault f.
Proof.
  intros Hc Hfit.
  destruct (snoc_cases (m_free (painter w))) as [Hf|(f & b & Hf)].
  - destruct (m_queue (painter w)) as [|x q] eqn:Hq.
    + rewrite enqueue_nothing_to_take by assumption. eauto.
    + rewrite enqueue_unfold.
      erewrite bind_Ok by (unfold free_isEmpty, gets; rewrite Hf; reflexivity).
      erewrite bind_Ok
        by (unfold queue_dequeue; unfold_M; repeat (cbn; rewrite ?Hq); reflexivity).
      erewrite bind_Ok by (unfold_M; cbn; rewrite Hc; reflexivity).
      destruct x as [b|].
      * edestruct (copy_frame_unfit c src b) as [f' Hf']; [eassumption|].
        erewrite bind_Fault by apply Hf'. eauto.
      * edestruct (copy_to_null c src) as [f' Hf'].
        erewrite bind_Fault by apply Hf'. eauto.
  - rewrite enqueue_unfold.
    erewrite bind_Ok by (unfold free_isEmpty, gets; rewrite Hf, isEmpty_snoc; reflexivity).
    erewrite bind_Ok
      by (unfold free_takeLast, when; unfold_M;
          repeat (cbn; rewrite ?Hf, ?isEmpty_snoc, ?last_snoc, ?removelast_last);
          reflexivity).
    erewrite bind_Ok by (unfold_M; cbn; rewrite Hc; reflexivity).
    edestruct (copy_frame_unfit c src b) as [f' Hf']; [eassumption|].
    erewrite bind_Fault by apply Hf'. eauto.
Qed.

Lemma enqueue_null_front w src q :
  m_free (painter w) = [] →
  m_queue (painter w) = None :: q →
  ∃ f, enqueue (Some src) w = Fault f.
Proof.
  intros Hf Hq.
  destruct (m_context (painter w)) as [c|] eqn:Hc.
  - rewrite enqueue_unfold.
    erewrite bind_Ok by (unfold free_isEmpty, gets; rewrite Hf; reflexivity).
    erewrite bind_Ok
      by (unfold queue_dequeue; unfold_M; repeat (cbn; rewrite ?Hq); reflexivity).
    erewrite bind_Ok by (unfold_M; cbn; rewrite Hc; reflexivity).
    edestruct (copy_to_null c src) as [f' Hf'].
    erewrite bind_Fault by apply Hf'. eauto.
  - apply enqueue_no_context. assumption.
Qed.

(** Every successful [enqueue] is one of three. *)
Lemma enqueue_Ok_inv w backing w' :
  enqueue backing w = Ok tt w' →
  (backing = None ∧
   w' = upd_painter (λ p, set_m_queue (m_queue p ++ [None]) p) w) ∨
  (∃ src f b c,
     backing = Some src ∧ m_free (painter w) = f ++ [b] ∧
     m_context (painter w) = Some c ∧
     w' = copied b src (frame_bytes c) (upd_painter (set_m_free f) w)) ∨
  (∃ src b q c,
     backing = Some src ∧ m_free (painter w) = [] ∧
     m_queue (painter w) = Some b :: q ∧ m_context (painter w) = Some c ∧
     w' = copied b src (frame_bytes c) (upd_painter (set_m_queue q) w)).
Proof.
  intros H. destruct backing as [src|].
  - destruct (m_context (painter w)) as [c|] eqn:Hc.
    + destruct (frame_fits c src) eqn:Hfit;
        [|destruct (enqueue_unfit w src c Hc Hfit) as [f Hf]; congruence].
      destruct (snoc_cases (m_free (painter w))) as [Hf|(f & b & Hf)].
      * destruct (m_queue (painter w)) as [|[b|] q] eqn:Hq.
        -- rewrite enqueue_nothing_to_take in H by assumption. discriminate.
        -- rewrite (enqueue_from_queue w src b q c) in H by assumption.
           right; right. exists src, b, q, c. intuition congruence.
        -- destruct (enqueue_null_front w src q Hf Hq) as [f Hn]. congruence.
      * rewrite (enqueue_from_free w src f b c) in H by assumption.
        right; left. exists src, f, b, c. intuition congruence.
    + destruct (enqueue_no_context w src Hc) as [f Hf]. congruence.
  - rewrite enqueue_null in H. left. split; congruence.
Qed.

(** A successful [enqueue] of a frame had a frame that fits. *)
Lemma enqueue_Ok_fits w src w' :
  enqueue (Some src) w = Ok tt w' →
  ∃ c, m_context (painter w) = Some c ∧ frame_fits c src = true.
Proof.
  intros H. destruct (m_context (painter w)) as [c|] eqn:Hc.
  - exists c. split; [reflexivity|].
    destruct (frame_fits c src) eqn:Hfit; [reflexivity|].
    destruct (enqueue_unfit w src c Hc Hfit) as [f Hf]. congruence.
  - destruct (enqueue_no_context w src Hc) as [f Hf]. congruence.
Qed.

(** *** The buffers stay the same *)

Lemma same_buffers_refl w : same_buffers w w.
Proof. split_and!; try done. Qed.

Lemma same_buffers_trans w1 w2 w3 :
  same_buffers w1 w2 → same_buffers w2 w3 → same_buffers w1 w3.
Proof.
  intros (P1 & B1 & D1) (P2 & B2 & D2). split_and!.
  - by rewrite P2.
  - congruence.
  - congruence.
Qed.

Lemma steady_ret {A} (a : A) : steady (ret a).
Proof. intros w a' w' H. unfold ret, gets in H; simplify_eq. apply same_buffers_refl. Qed.

Lemma steady_fail {A} f : steady (@fail A f).
Proof. intros w a w' H. discriminate. Qed.

Lemma steady_gets {A} (f : World → A) : steady (gets f).
Proof. intros w a w' H. unfold ret, gets in H; simplify_eq. apply same_buffers_refl. Qed.

Lemma steady_bind {A B} (c : M A) (k : A → M B) :
  steady c → (∀ a, steady (k a)) → steady (c ≫= k).
Proof.
  intros Hc Hk w b w' H. unfold bind in H.
  destruct (c w) as [a w1|] eqn:E; [|discriminate].
  eapply same_buffers_trans; [eapply Hc, E | eapply Hk, H].
Qed.

Lemma steady_modify (f : World → World) :
  (∀ w, same_buffers w (f w)) → steady (modify f).
Proof. intros Hf w a w' H. unfold modify in H; simplify_eq. apply Hf. Qed.

Lemma steady_emit e : steady (emit e).
Proof. apply steady_modify. intros w. split_and!; try done. Qed.

Lemma steady_when b c : steady c → steady (when b c).
Proof. intros Hc. destruct b; [exact Hc | apply steady_ret]. Qed.

Lemma steady_deref {A} (o : option A) : steady (deref o).
Proof. destruct o; [apply steady_ret | apply steady_fail]. Qed.

Lemma steady_enqueue backing : steady (enqueue backing).
Proof.
  intros w [] w' H.
  destruct (enqueue_Ok_inv _ _ _ H)
    as [(_ & ->)|[(src & f & b & c & _ & Hf & _ & ->)|(src & b & q & c & _ & Hf & Hq & _ & ->)]];
    unfold same_buffers, pool; cbn; rewrite ?Hf, ?Hq, ?nonnull_app; cbn.
  - rewrite app_nil_r. split_and!; try done.
  - rewrite dom_alter_L. split_and!; try done.
    rewrite <- !app_assoc. apply Permutation_app_head, Permutation_app_comm.
  - rewrite dom_alter_L. split_and!; try done.
    symmetry. apply Permutation_cons_append.
Qed.

Lemma steady_dequeue : steady dequeue.
Proof.
  intros w [] w' H.
  destruct (m_queue (painter w)) as [|[b|] q] eqn:Hq.
  - rewrite dequeue_nil in H by assumption. unfold modify in H; simplify_eq. apply same_buffers_refl.
  - rewrite (dequeue_buffer w b q) in H by assumption. unfold modify in H; simplify_eq.
    unfold same_buffers, pool; cbn. rewrite Hq. cbn. split_and!; try done.
    rewrite <- app_assoc. reflexivity.
  - rewrite (dequeue_null w q) in H by assumption. unfold modify in H; simplify_eq.
    unfold same_buffers, pool; cbn. rewrite Hq. split_and!; try done.
Qed.

Lemma steady_dequeueAll : steady dequeueAll.
Proof.
  intros w [] w' H. rewrite dequeueAll_spec in H. unfold modify in H; simplify_eq.
  destruct (last_entry _ _); unfold same_buffers, pool; cbn;
    rewrite app_nil_r; split_and!; try done.
Qed.

Create HintDb steady.

Ltac steady_step :=
  match goal with
  | |- steady (bind _ _) => apply steady_bind; [|intros ?]
  | |- steady (ret _) => apply steady_ret
  | |- steady (fail _) => apply steady_fail
  | |- steady (gets _) => apply steady_gets
  | |- steady (emit _) => apply steady_emit
  | |- steady (when _ _) => apply steady_when
  | |- steady (deref _) => apply steady_deref
  | |- steady (modify _) => apply steady_modify; intros ?; split_and!; reflexivity
  | |- steady (if ?b then _ else _) => destruct b
  | |- steady (match ?x with _ => _ end) => destruct x
  | |- steady _ => solve [auto with steady]
  end.

Ltac steady_tac := repeat steady_step.

Lemma steady_queue_isEmpty : steady queue_isEmpty.
Proof. apply steady_gets. Qed.

Hint Resolve steady_enqueue steady_dequeue steady_dequeueAll steady_queue_isEmpty : steady.

Lemma steady_gl_makeCurrent : steady gl_makeCurrent.
Proof. unfold gl_makeCurrent. steady_tac. Qed.

Lemma steady_gl_doneCurrent : steady gl_doneCurrent.
Proof. unfold gl_doneCurrent. steady_tac. Qed.

Lemma steady_invokeQueued s : steady (invokeQueued s).
Proof. unfold invokeQueued. steady_tac. Qed.

Lemma steady_backend_swap : steady backend_swap.
Proof. unfold backend_swap. steady_tac. Qed.

Hint Resolve steady_gl_makeCurrent steady_gl_doneCurrent steady_invokeQueued
  steady_backend_swap : steady.

Lemma steady_resizeContext : steady resizeContext.
Proof. unfold resizeContext. steady_tac. Qed.

Hint Resolve steady_resizeContext : steady.

Lemma steady_setContext context : steady (setContext context).
Proof. unfold setContext. steady_tac. Qed.

Lemma steady_setMessagePainter mp : steady (setMessagePainter mp).
Proof. unfold setMessagePainter. steady_tac. Qed.

Lemma steady_performDraw : steady performDraw.
Proof. unfold performDraw. steady_tac. Qed.

Hint Resolve steady_setContext steady_setMessagePainter steady_performDraw : steady.

Lemma steady_forceDraw : steady forceDraw.
Proof. unfold forceDraw. steady_tac. Qed.

Hint Resolve steady_forceDraw : steady.

Lemma steady_resize size : steady (resize size).
Proof. unfold resize. steady_tac. Qed.

Hint Resolve steady_resize : steady.

Lemma steady_lockAspectRatio lock : steady (lockAspectRatio lock).
Proof. unfold lockAspectRatio. steady_tac. Qed.

Lemma steady_lockIntegerScaling lock : steady (lockIntegerScaling lock).
Proof. unfold lockIntegerScaling. steady_tac. Qed.

Lemma steady_PainterGL_filter f : steady (PainterGL_filter f).
Proof. unfold PainterGL_filter. steady_tac. Qed.

Lemma steady_start : steady start.
Proof. unfold start. steady_tac. Qed.

Lemma steady_pause : steady pause.
Proof. unfold pause. steady_tac. Qed.

Lemma steady_unpause : steady unpause.
Proof. unfold unpause. steady_tac. Qed.

Lemma steady_swap : steady swap.
Proof. unfold swap. steady_tac. Qed.

Lemma steady_draw : steady draw.
Proof. unfold draw. steady_tac. Qed.

Hint Resolve steady_lockAspectRatio steady_lockIntegerScaling steady_PainterGL_filter
  steady_start steady_pause steady_unpause steady_swap steady_draw : steady.

Lemma steady_stop : steady stop.
Proof. unfold stop. steady_tac. Qed.

Lemma steady_run_slot s : steady (run_slot s).
Proof. destruct s; cbn; auto with steady. Qed.

Hint Resolve steady_stop steady_run_slot : steady.

Lemma steady_run_slots l : steady (run_slots l).
Proof. induction l; cbn; steady_tac. Qed.

Hint Resolve steady_run_slots : steady.

Lemma steady_dispatch : steady dispatch.
Proof. unfold dispatch. steady_tac. Qed.

Lemma steady_timeout : steady timeout.
Proof. unfold timeout. steady_tac. Qed.

Lemma steady_invokeBlocking {A} (c : M A) : steady c → steady (invokeBlocking c).
Proof. intros Hc. unfold invokeBlocking. steady_tac. Qed.

Lemma steady_contextLost : steady contextLost.
Proof. unfold contextLost. steady_tac. Qed.

Lemma steady_drawThread_set : steady drawThread_set.
Proof. unfold drawThread_set. steady_tac. Qed.

Hint Resolve steady_dispatch steady_timeout steady_invokeBlocking
  steady_contextLost steady_drawThread_set : steady.

Lemma steady_DisplayGL_lockAspectRatio lock : steady (DisplayGL_lockAspectRatio lock).
Proof. unfold DisplayGL_lockAspectRatio. steady_tac. Qed.

Lemma steady_DisplayGL_lockIntegerScaling lock : steady (DisplayGL_lockIntegerScaling lock).
Proof. unfold DisplayGL_lockIntegerScaling. steady_tac. Qed.

Lemma steady_DisplayGL_filter f : steady (DisplayGL_filter f).
Proof. unfold DisplayGL_filter. steady_tac. Qed.

Lemma steady_resizePainter : steady resizePainter.
Proof. unfold resizePainter. steady_tac. Qed.

Hint Resolve steady_DisplayGL_lockAspectRatio steady_DisplayGL_lockIntegerScaling
  steady_DisplayGL_filter steady_resizePainter : steady.

Lemma steady_startDrawing controller : steady (startDrawing controller).
Proof. unfold startDrawing. steady_tac. Qed.

Lemma steady_stopDrawing : steady stopDrawing.
Proof. unfold stopDrawing. steady_tac. Qed.

Lemma steady_pauseDrawing : steady pauseDrawing.
Proof. unfold pauseDrawing. steady_tac. Qed.

Lemma steady_unpauseDrawing : steady unpauseDrawing.
Proof. unfold unpauseDrawing. steady_tac. Qed.

Lemma steady_DisplayGL_forceDraw : steady DisplayGL_forceDraw.
Proof. unfold DisplayGL_forceDraw. steady_tac. Qed.

Lemma steady_framePosted drawContext : steady (framePosted drawContext).
Proof. unfold framePosted. steady_tac. Qed.

Lemma steady_DisplayGL_resizeContext : steady DisplayGL_resizeContext.
Proof. unfold DisplayGL_resizeContext. steady_tac. Qed.

Lemma steady_resizeEvent size : steady (resizeEvent size).
Proof. unfold resizeEvent. steady_tac. Qed.

Hint Resolve steady_startDrawing steady_stopDrawing steady_pauseDrawing
  steady_unpauseDrawing steady_DisplayGL_forceDraw steady_framePosted
  steady_DisplayGL_resizeContext steady_resizeEvent : steady.

Lemma steady_run_op o : steady (run_op o).
Proof. destruct o; cbn; auto with steady. Qed.

(** *** The two buffers of the constructor *)

Lemma DisplayGL_ctor_spec w0 majorVersion fbo w :
  blank w0 →
  DisplayGL_ctor majorVersion fbo w0 = Ok tt w →
  m_free (painter w) = [brk w0; S (brk w0)] ∧ m_queue (painter w) = [] ∧
  brk w = S (S (brk w0)) ∧ dom (mem w) = {[brk w0; S (brk w0)]}.
Proof.
  intros (Hmem & _) H.
  unfold DisplayGL_ctor, PainterGL_ctor, gl_makeCurrent, gl_doneCurrent in H.
  cbn in H. unfold new_buffer, free_append in H.
  unfold emit, gets, modify, bind, ret in H. cbn in H.
  injection H as <-. cbn. rewrite Hmem. split_and!; try reflexivity.
  rewrite !dom_insert_L, dom_empty_L, (right_id_L ∅ (∪)). apply (comm_L (∪)).
Qed.

Lemma DisplayGL_ctor_total w0 majorVersion fbo :
  ∃ w, DisplayGL_ctor majorVersion fbo w0 = Ok tt w.
Proof. eexists. reflexivity. Qed.

Lemma reachable_two_buffers w : reachable w → two_buffers w.
Proof.
  induction 1 as [w0 mv fbo w Hb Hc | w o w' _ (a & Hp & Hbrk & Hdom) Hstep].
  - destruct (DisplayGL_ctor_spec _ _ _ _ Hb Hc) as (Hf & Hq & Hbrk & Hdom).
    exists (brk w0). unfold pool. rewrite Hf, Hq. cbn. auto.
  - destruct (steady_run_op _ _ _ _ Hstep) as (Hp' & Hbrk' & Hdom').
    exists a. split_and!.
    + by rewrite Hp'.
    + congruence.
    + congruence.
Qed.

Lemma two_buffers_NoDup w : two_buffers w → NoDup (pool w).
Proof.
  intros (a & Hp & _). rewrite Hp.
  apply NoDup_cons. split; [|apply NoDup_singleton].
  rewrite list_elem_of_singleton. lia.
Qed.

Lemma new_calls_app w w' l : trace w' = trace w ++ l → new_calls w w' = l.
Proof. intros H. unfold new_calls. rewrite H. apply drop_app_length. Qed.

Lemma new_calls_same w w' : trace w' = trace w → new_calls w w' = [].
Proof. intros H. unfold new_calls. rewrite H. apply drop_all. Qed.

Lemma bind_Ok_inv {A B} (c : M A) (k : A → M B) w b w' :
  (c ≫= k) w = Ok b w' → ∃ a w1, c w = Ok a w1 ∧ k a w1 = Ok b w'.
Proof.
  unfold bind. destruct (c w) as [a w1|]; [eauto | discriminate].
Qed.

(** *** Computations that keep a property of the world *)

Lemma keeps_ret I {A} (a : A) : keeps I (ret a).
Proof. intros w a' w' HI H. unfold ret in H. by simplify_eq. Qed.

Lemma keeps_fail I {A} f : keeps I (@fail A f).
Proof. intros w a w' HI H. discriminate. Qed.

Lemma keeps_gets I {A} (f : World → A) : keeps I (gets f).
Proof. intros w a w' HI H. unfold gets in H. by simplify_eq. Qed.

Lemma keeps_bind I {A B} (c : M A) (k : A → M B) :
  keeps I c → (∀ a, keeps I (k a)) → keeps I (c ≫= k).
Proof.
  intros Hc Hk w b w' HI H.
  apply bind_Ok_inv in H as (a & w1 & H1 & H2).
  eapply Hk; [|exact H2]. eapply Hc; [exact HI|exact H1].
Qed.

Lemma keeps_modify I (f : World → World) :
  (∀ w, I w → I (f w)) → keeps I (modify f).
Proof. intros Hf w a w' HI H. unfold modify in H. simplify_eq. by apply Hf. Qed.

Lemma keeps_when I b c : keeps I c → keeps I (when b c).
Proof. intros Hc. destruct b; [exact Hc | apply keeps_ret]. Qed.

Lemma keeps_deref I {A} (o : option A) : keeps I (deref o).
Proof. destruct o; [apply keeps_ret | apply keeps_fail]. Qed.

Create HintDb keeps.

Ltac head_of t :=
  match t with
  | ?f _ => head_of f
  | _ => t
  end.

Ltac keeps_step :=
  match goal with
  | |- keeps _ (bind _ _) => apply keeps_bind; [|intros ?]
  | |- keeps _ (ret _) => apply keeps_ret
  | |- keeps _ (fail _) => apply keeps_fail
  | |- keeps _ (gets _) => apply keeps_gets
  | |- keeps _ (when _ _) => apply keeps_when
  | |- keeps _ (deref _) => apply keeps_deref
  | |- keeps _ (modify _) =>
      apply keeps_modify; let H := fresh in intros ? H; exact H
  | |- keeps _ (emit _) =>
      first [ apply keeps_modify; let H := fresh in intros ? H; exact H
            | solve [auto with keeps] ]
  | |- keeps _ (if ?b then _ else _) => destruct b
  | |- keeps _ (match ?x with _ => _ end) => destruct x
  | |- keeps _ ?c =>
      first [ solve [auto with keeps]
            | let h := head_of c in progress unfold h ]
  end.

Ltac keeps_tac := repeat keeps_step.

(** *** Where the buffers are at every call *)

Lemma sound_buffers_perm heap k w w' l :
  sound_buffers heap k w →
  pool w' ≡ₚ pool w →
  trace w' = trace w ++ l →
  Forall (sound_call heap) l →
  sound_buffers heap k w'.
Proof.
  intros (Hnd & Hsub & Hk & Htr) Hp Ht Hl. split_and!.
  - by rewrite Hp.
  - intros b. rewrite Hp. apply Hsub.
  - rewrite Ht, length_app. lia.
  - rewrite Ht, drop_app_le by exact Hk. apply Forall_app. by split.
Qed.

(** A call that hands no buffer over is sound when the containers are. *)
Lemma sound_call_plain heap e w :
  NoDup (pool w) → (∀ b, b ∈ pool w → b ∈ heap) →
  (∀ b, e ≠ ev_postFrame b) → (∀ b n, e ≠ ev_memcpy b n) →
  sound_call heap (snapshot e w).
Proof.
  intros Hnd Hsub Hp Hm. split_and!; try done.
  - intros b H. cbn in H. by destruct (Hp b).
  - intros b n H. cbn in H. by destruct (Hm b n).
Qed.

Lemma sound_emit heap k e :
  (∀ b, e ≠ ev_postFrame b) → (∀ b n, e ≠ ev_memcpy b n) →
  keeps (sound_buffers heap k) (emit e).
Proof.
  intros Hp Hm. apply keeps_modify. intros w HI.
  eapply (sound_buffers_perm heap k w); [exact HI|reflexivity|reflexivity|].
  apply Forall_singleton. destruct HI as (Hnd & Hsub & _ & _).
  by apply sound_call_plain.
Qed.

Lemma sound_enqueue heap k backing : keeps (sound_buffers heap k) (enqueue backing).
Proof.
  intros w [] w' HI H. pose proof HI as (Hnd & Hsub & _ & _). unfold pool in Hnd, Hsub.
  destruct (enqueue_Ok_inv _ _ _ H)
    as [(_ & ->)|[(src & f & b & c & _ & Hf & _ & ->)|(src & b & q & c & _ & Hf & Hq & _ & ->)]].
  - eapply (sound_buffers_perm heap k w _ []); [exact HI| |by rewrite app_nil_r|constructor].
    unfold pool. cbn. rewrite nonnull_app. cbn. by rewrite app_nil_r.
  - rewrite Hf in Hnd, Hsub.
    eapply (sound_buffers_perm heap k w); [exact HI| |reflexivity|].
    + unfold pool. cbn. rewrite Hf, nonnull_app. cbn.
      rewrite <- !app_assoc. apply Permutation_app_head, Permutation_app_comm.
    + apply Forall_singleton.
      assert (f ++ [b] ++ nonnull (m_queue (painter w))
                ≡ₚ b :: f ++ nonnull (m_queue (painter w))) as Hperm
        by (symmetry; apply Permutation_middle).
      rewrite <- app_assoc, Hperm in Hnd. apply NoDup_cons in Hnd as (Hb & Hnd).
      split_and!; cbn.
      * exact Hnd.
      * intros x Hx. apply Hsub. rewrite <- app_assoc, Hperm. by right.
      * intros x Hx. discriminate.
      * intros x n Hx. simplify_eq. split; [|exact Hb].
        apply Hsub. rewrite <- app_assoc, Hperm. by left.
  - rewrite Hf, Hq in Hnd, Hsub. cbn in Hnd, Hsub.
    apply NoDup_cons in Hnd as (Hb & Hnd).
    eapply (sound_buffers_perm heap k w); [exact HI| |reflexivity|].
    + unfold pool. cbn. rewrite Hf, Hq, nonnull_app. cbn.
      symmetry. apply Permutation_cons_append.
    + apply Forall_singleton. split_and!; cbn; rewrite ?Hf; cbn.
      * exact Hnd.
      * intros x Hx. apply Hsub. by right.
      * intros x Hx. discriminate.
      * intros x n Hx. simplify_eq. split; [|exact Hb]. apply Hsub. by left.
Qed.

Lemma sound_dequeue heap k : keeps (sound_buffers heap k) dequeue.
Proof.
  intros w [] w' HI H. pose proof HI as (Hnd & Hsub & _ & _). unfold pool in Hnd, Hsub.
  destruct (m_queue (painter w)) as [|[b|] q] eqn:Hq.
  - rewrite dequeue_nil in H by assumption. by simplify_eq.
  - rewrite (dequeue_buffer w b q) in H by assumption. simplify_eq.
    cbn in Hnd, Hsub.
    assert (m_free (painter w) ++ b :: nonnull q
              ≡ₚ b :: m_free (painter w) ++ nonnull q) as Hperm
      by (symmetry; apply Permutation_middle).
    eapply (sound_buffers_perm heap k w); [exact HI| |reflexivity|].
    + unfold pool. cbn. rewrite Hq. cbn. rewrite <- app_assoc. reflexivity.
    + apply Forall_singleton.
      rewrite Hperm in Hnd. apply NoDup_cons in Hnd as (Hb & Hnd).
      split_and!; cbn.
      * exact Hnd.
      * intros x Hx. apply Hsub. rewrite Hperm. by right.
      * intros x Hx. simplify_eq. split.
        -- apply Hsub. rewrite Hperm. by left.
        -- rewrite <- elem_of_nonnull. intros Hin. apply Hb.
           apply elem_of_app. by right.
      * intros x n Hx. discriminate.
  - rewrite (dequeue_null w q) in H by assumption. simplify_eq.
    eapply (sound_buffers_perm heap k w _ []); [exact HI| |by rewrite app_nil_r|constructor].
    unfold pool. cbn. rewrite Hq. reflexivity.
Qed.

Lemma sound_dequeueAll heap k : keeps (sound_buffers heap k) dequeueAll.
Proof.
  intros w [] w' HI H. pose proof HI as (Hnd & Hsub & _ & _). unfold pool in Hnd, Hsub.
  rewrite dequeueAll_spec in H. simplify_eq.
  unfold last_entry.
  destruct (last (m_queue (painter w))) as [[b|]|] eqn:Hlast; cbn.
  - eapply (sound_buffers_perm heap k w); [exact HI| |reflexivity|].
    + unfold pool. cbn. by rewrite app_nil_r.
    + apply Forall_singleton. split_and!; cbn; rewrite ?app_nil_r.
      * exact Hnd.
      * exact Hsub.
      * intros x Hx. simplify_eq. split; [|apply not_elem_of_nil].
        apply Hsub. apply elem_of_app. right. apply elem_of_nonnull.
        by apply last_Some_elem_of.
      * intros x n Hx. discriminate.
  - eapply (sound_buffers_perm heap k w _ []); [exact HI| |by rewrite app_nil_r|constructor].
    unfold pool. cbn. by rewrite app_nil_r.
  - eapply (sound_buffers_perm heap k w _ []); [exact HI| |by rewrite app_nil_r|constructor].
    unfold pool. cbn. by rewrite app_nil_r.
Qed.

Hint Resolve sound_enqueue sound_dequeue sound_dequeueAll : keeps.
Hint Extern 1 (keeps (sound_buffers _ _) (emit _)) =>
  apply sound_emit; intros; discriminate : keeps.

Lemma sound_run_slot heap k s : keeps (sound_buffers heap k) (run_slot s).
Proof. keeps_tac. Qed.

Hint Resolve sound_run_slot : keeps.

Lemma sound_run_slots heap k l : keeps (sound_buffers heap k) (run_slots l).
Proof. induction l as [|s l IH]; cbn [run_slots]; keeps_tac. Qed.

Hint Resolve sound_run_slots : keeps.



(** *** The statements of the specification *)

(** C1, as amended: [dequeueAll] always succeeds, empties the queue
    and returns every buffer of the queue to the free pool, in queue
    order; it calls [postFrame] once, on the last entry of the queue, when
    that entry is a buffer, and not at all when the last entry is null or
    the queue is empty. *)
Theorem dequeueAll_posts_last_entry w :
  ∃ w', dequeueAll w = Ok tt w' ∧
        m_queue (painter w') = [] ∧
        m_free (painter w') = m_free (painter w) ++ nonnull (m_queue (painter w)) ∧
        map what (new_calls w w') =
          match last (m_queue (painter w)) with
          | Some (Some b) => [ev_postFrame b]
          | _ => []
          end.
Proof.
  eexists. split; [apply dequeueAll_spec|].
  unfold last_entry.
  destruct (last (m_queue (painter w))) as [[b|]|]; cbn.
  - split_and!; try reflexivity.
    erewrite new_calls_app by reflexivity. reflexivity.
  - split_and!; try reflexivity. rewrite new_calls_same; reflexivity.
  - split_and!; try reflexivity. rewrite new_calls_same; reflexivity.
Qed.

(** X16: what [enqueue] does when it has a buffer to copy into.
    [enqueue] of a null source appends a null entry and does nothing
    else.  [enqueue] of a frame that fits, with a core bound, takes the
    last buffer of the free pool when the pool is not empty, and the
    buffer at the front of the queue when the pool is empty and that
    entry is a buffer; it copies the frame's bytes into that buffer, with
    one [memcpy], and appends the buffer to the queue. *)
Theorem enqueue_with_buffer_copies_and_appends :
  (∀ w, enqueue None w =
        Ok tt (upd_painter (λ p, set_m_queue (m_queue p ++ [None]) p) w)) ∧
  (∀ w src f b c,
     m_free (painter w) = f ++ [b] →
     m_context (painter w) = Some c →
     frame_fits c src = true →
     ∃ w', enqueue (Some src) w = Ok tt w' ∧
           m_free (painter w') = f ∧
           m_queue (painter w') = m_queue (painter w) ++ [Some b] ∧
           mem w' = alter (λ old, take (frame_bytes c) src ++ drop (frame_bytes c) old)
                      b (mem w) ∧
           map what (new_calls w w') = [ev_memcpy b (frame_bytes c)]) ∧
  (∀ w src b q c,
     m_free (painter w) = [] →
     m_queue (painter w) = Some b :: q →
     m_context (painter w) = Some c →
     frame_fits c src = true →
     ∃ w', enqueue (Some src) w = Ok tt w' ∧
           m_free (painter w') = [] ∧
           m_queue (painter w') = q ++ [Some b] ∧
           mem w' = alter (λ old, take (frame_bytes c) src ++ drop (frame_bytes c) old)
                      b (mem w) ∧
           map what (new_calls w w') = [ev_memcpy b (frame_bytes c)]).
Proof.
  split_and!.
  - apply enqueue_null.
  - intros w src f b c Hf Hc Hfit. eexists. split; [by apply enqueue_from_free|].
    cbn. split_and!; try reflexivity.
    erewrite new_calls_app by reflexivity. reflexivity.
  - intros w src b q c Hf Hq Hc Hfit. eexists. split; [by apply enqueue_from_queue|].
    cbn. split_and!; try reflexivity; [assumption|].
    erewrite new_calls_app by reflexivity. reflexivity.
Qed.

(** C5: [enqueue] of a null source allocates nothing, copies nothing
    and makes no call; it leaves the free pool and the heap as they were
    and appends a null entry.  [dequeue] with a null entry at the front
    removes the entry, makes no call and leaves the free pool as it was. *)
Theorem null_frame_is_silent :
  (∀ w, ∃ w', enqueue None w = Ok tt w' ∧
              m_queue (painter w') = m_queue (painter w) ++ [None] ∧
              m_free (painter w') = m_free (painter w) ∧
              mem w' = mem w ∧ brk w' = brk w ∧
              new_calls w w' = []) ∧
  (∀ w q, m_queue (painter w) = None :: q →
          ∃ w', dequeue w = Ok tt w' ∧
                m_queue (painter w') = q ∧
                m_free (painter w') = m_free (painter w) ∧
                mem w' = mem w ∧
                new_calls w w' = []).
Proof.
  split.
  - intros w. eexists. split; [apply enqueue_null|].
    cbn. split_and!; try reflexivity. by apply new_calls_same.
  - intros w q Hq. eexists. split; [by apply dequeue_null|].
    cbn. split_and!; try reflexivity. by apply new_calls_same.
Qed.


(** C2, as amended: in every world a display can reach, the buffer
    [enqueue] copies into is, at the moment of the copy, neither in the
    free pool nor in the pending queue; the buffer [dequeue] hands to
    [postFrame] is, at the moment of the call, neither in the free pool
    nor in the pending queue; the buffer [dequeueAll] hands to [postFrame]
    is no longer in the pending queue but has already been appended to
    the free pool. *)
Theorem ownership_at_calls w :
  reachable w →
  (∀ backing w' c b n,
     enqueue backing w = Ok tt w' →
     c ∈ new_calls w w' → what c = ev_memcpy b n →
     (b ∉ free_then c) ∧ (Some b ∉ queue_then c)) ∧
  (∀ w' c b,
     dequeue w = Ok tt w' →
     c ∈ new_calls w w' → what c = ev_postFrame b →
     (b ∉ free_then c) ∧ (Some b ∉ queue_then c)) ∧
  (∀ w' c b,
     dequeueAll w = Ok tt w' →
     c ∈ new_calls w w' → what c = ev_postFrame b →
     (b ∈ free_then c) ∧ (Some b ∉ queue_then c)).
Proof.
  intros Hr.
  pose proof (two_buffers_NoDup _ (reachable_two_buffers _ Hr)) as Hnd.
  unfold pool in Hnd. split_and!.
  - intros backing w' c b n H Hin Hc.
    destruct (enqueue_Ok_inv _ _ _ H)
      as [(_ & ->)|[(src & f & b' & k & _ & Hf & _ & ->)|(src & b' & q & k & _ & Hf & Hq & _ & ->)]].
    + rewrite new_calls_same in Hin by reflexivity. by apply elem_of_nil in Hin.
    + erewrite new_calls_app in Hin by reflexivity.
      apply list_elem_of_singleton in Hin. subst c. cbn in Hc. simplify_eq. cbn.
      rewrite Hf in Hnd.
      apply NoDup_app in Hnd as (Hfree & Hdisj & _).
      apply NoDup_app in Hfree as (_ & Hfb & _).
      split.
      * intros Hb. apply (Hfb b Hb). by apply list_elem_of_singleton.
      * rewrite <- elem_of_nonnull. apply Hdisj.
        apply elem_of_app. right. by apply list_elem_of_singleton.
    + erewrite new_calls_app in Hin by reflexivity.
      apply list_elem_of_singleton in Hin. subst c. cbn in Hc. simplify_eq. cbn.
      rewrite Hf, Hq in Hnd. cbn in Hnd.
      apply NoDup_cons in Hnd as (Hb & _).
      split; [rewrite Hf; apply not_elem_of_nil|]. by rewrite <- elem_of_nonnull.
  - intros w' c b H Hin Hc.
    destruct (m_queue (painter w)) as [|[b'|] q] eqn:Hq.
    + rewrite dequeue_nil in H by assumption. simplify_eq.
      rewrite new_calls_same in Hin by reflexivity. by apply elem_of_nil in Hin.
    + rewrite (dequeue_buffer w b' q) in H by assumption. simplify_eq.
      erewrite new_calls_app in Hin by reflexivity.
      apply list_elem_of_singleton in Hin. subst c. cbn in Hc. simplify_eq. cbn.
      cbn in Hnd. apply NoDup_app in Hnd as (_ & Hdisj & Hnq).
      apply NoDup_cons in Hnq as (Hb & _).
      split.
      * intros Hfree. apply (Hdisj b Hfree). apply elem_of_cons. by left.
      * by rewrite <- elem_of_nonnull.
    + rewrite (dequeue_null w q) in H by assumption. simplify_eq.
      rewrite new_calls_same in Hin by reflexivity. by apply elem_of_nil in Hin.
  - intros w' c b H Hin Hc.
    rewrite dequeueAll_spec in H. simplify_eq.
    unfold last_entry in Hin.
    destruct (last (m_queue (painter w))) as [[b'|]|] eqn:Hlast; cbn in Hin.
    + erewrite new_calls_app in Hin by reflexivity.
      apply list_elem_of_singleton in Hin. subst c. cbn in Hc. simplify_eq. cbn.
      split; [|apply not_elem_of_nil].
      apply elem_of_app. right. apply elem_of_nonnull.
      by apply last_Some_elem_of.
    + rewrite new_calls_same in Hin by reflexivity. by apply elem_of_nil in Hin.
    + rewrite new_calls_same in Hin by reflexivity. by apply elem_of_nil in Hin.
Qed.

(** *** Starting and stopping *)

Lemma stopDrawing_Ok_inv w w1 :
  stopDrawing w = Ok tt w1 →
  d_drawThread (display w1) = None ∧ d_context (display w1) = None.
Proof.
  unfold stopDrawing. intros H.
  apply bind_Ok_inv in H as (t & wa & Ht & H).
  apply bind_Ok_inv in H as ([] & wb & Hb & H).
  unfold modify in H. injection H as <-. cbn. split; [|reflexivity].
  unfold drawThread_set, gets in Ht. injection Ht as <- <-.
  destruct (d_drawThread (display w)) eqn:E; unfold when in Hb.
  - apply bind_Ok_inv in Hb as ([] & w2 & _ & Hb).
    apply bind_Ok_inv in Hb as ([] & w3 & _ & Hb).
    apply bind_Ok_inv in Hb as ([] & w4 & _ & Hb).
    unfold gl_makeCurrent in Hb. unfold emit, modify, bind in Hb. cbn in Hb.
    injection Hb as <-. reflexivity.
  - unfold ret in Hb. injection Hb as <-. exact E.
Qed.

Lemma stopDrawing_stopped w :
  d_drawThread (display w) = None →
  d_context (display w) = None →
  stopDrawing w = Ok tt w.
Proof.
  intros Ht Hc. unfold stopDrawing, drawThread_set. unfold_M.
  rewrite Ht. destruct_world w. cbn in *. subst. reflexivity.
Qed.

(** C10: [startDrawing] while a draw thread exists returns at once and
    changes nothing: the world afterwards is the world before, with no
    call made. *)
Theorem startDrawing_while_running w controller t :
  d_drawThread (display w) = Some t →
  startDrawing controller w = Ok tt w.
Proof.
  intros Ht. unfold startDrawing, drawThread_set. unfold_M.
  rewrite Ht. reflexivity.
Qed.

Lemma stop_again w w1 :
  stop w = Ok tt w1 →
  ∃ w2, stop w1 = Ok tt w2 ∧
        w1 = set_trace (trace w1) w2 ∧
        map what (new_calls w1 w2) = [ev_clear; ev_proxyReset; ev_doneCurrent].
Proof.
  intros H. destruct_world w. destruct gl0 as [valid current th].
  unfold stop, backend_swap, swap, gl_doneCurrent, gl_makeCurrent,
    queue_isEmpty, invokeQueued in H.
  unfold when, emit, gets, modify, fail, deref, bind, ret in H.
  rewrite dequeueAll_spec in H. cbn in H.
  destruct (last m_queue0) as [[?|]|], m_swapTimer0, valid, m_frameReady0,
    m_needsUnlock0, m_context0, m_videoProxy0;
    cbn in H; try discriminate; injection H as <-;
    (eexists; split_and!;
     [ unfold stop, backend_swap, swap, gl_doneCurrent, gl_makeCurrent,
         queue_isEmpty, invokeQueued;
       unfold when, emit, gets, modify, fail, deref, bind, ret;
       rewrite dequeueAll_spec; cbn; reflexivity
     | cbn; rewrite ?app_nil_r; reflexivity
     | unfold new_calls; cbn;
       rewrite <- ?app_assoc, ?length_app, ?drop_app_add, ?drop_app_length; cbn;
       reflexivity ]).
Qed.

(** C7, as amended: once [stopDrawing] has completed, a second
    [stopDrawing] is a no-op: it returns the world it was given and makes
    no call.  The painter's own [stop] has no guard: run again after a
    completed [stop] it completes and leaves every object as it was (the
    painter's fields, the queue, the free pool, the buffers, the backend's
    settings and the threads of context, painter and proxy), but it is
    not a no-op, for it calls the backend's [clear], the video proxy's
    [reset] and the context's [doneCurrent] once more, these three and no
    other. *)
Theorem stop_is_idempotent :
  (∀ w w1, stopDrawing w = Ok tt w1 → stopDrawing w1 = Ok tt w1) ∧
  (∀ w w1, stop w = Ok tt w1 →
           ∃ w2, stop w1 = Ok tt w2 ∧
                 w1 = set_trace (trace w1) w2 ∧
                 map what (new_calls w1 w2) = [ev_clear; ev_proxyReset; ev_doneCurrent]).
Proof.
  split.
  - intros w w1 H. apply stopDrawing_Ok_inv in H as (Ht & Hc).
    by apply stopDrawing_stopped.
  - apply stop_again.
Qed.

(** *** The swap timer *)

(** C6, as amended: [swap] with a GL context that is not valid
    returns at once and changes nothing.  With a valid context, and a
    core bound whenever a handshake is held, it presents the frame that
    is ready and clears the flag, releases the handshake that is held,
    and then queues a draw if the pending queue is not empty and starts
    the timer again if it is. *)
Theorem swap_presents_releases_reschedules :
  (∀ w, gl_valid (gl w) = false → swap w = Ok tt w) ∧
  (∀ w, gl_valid (gl w) = true →
        (m_needsUnlock (painter w) = true → is_Some (m_context (painter w))) →
        swap w = Ok tt (rescheduled (released (presented w)))).
Proof.
  split.
  - intros w Hv. unfold swap. unfold_M. rewrite Hv. reflexivity.
  - intros w Hv Hctx. destruct_world w. destruct gl0 as [valid current th].
    cbn in Hv, Hctx. subst valid.
    unfold swap, gl_makeCurrent, queue_isEmpty, invokeQueued,
      rescheduled, released, presented, snapshot.
    unfold_M.
    destruct m_frameReady0, m_needsUnlock0; cbn;
      try (destruct Hctx as [c Hc]; [reflexivity|]; rewrite Hc; cbn);
      destruct m_queue0; cbn; rewrite <- ?app_assoc; reflexivity.
Qed.

(** *** Drawing while paused *)

(** C3, as amended: [pause] clears [m_active] and nothing else, and
    [draw] does not read [m_active]: with the painter paused, a [draw]
    with a non-empty queue, no handshake held and a core bound takes the
    front entry off the queue, calls the backend's [drawFrame] once and
    leaves a frame ready.  While paused [enqueue] goes on recycling the
    same buffers. *)
Theorem paused_draw_still_draws :
  (∀ w, pause w = Ok tt (upd_painter (set_m_active false) w)) ∧
  (∀ w x q c,
     m_active (painter w) = false →
     m_queue (painter w) = x :: q →
     m_needsUnlock (painter w) = false →
     m_context (painter w) = Some c →
     ∃ w', draw w = Ok tt w' ∧
           drawFrames w w' = 1 ∧
           m_queue (painter w') = q ∧
           m_frameReady (painter w') = true ∧
           m_active (painter w') = false) ∧
  (∀ w backing w',
     m_active (painter w) = false →
     enqueue backing w = Ok tt w' →
     pool w' ≡ₚ pool w ∧ m_active (painter w') = false).
Proof.
  split_and!.
  - reflexivity.
  - intros w x q c Ha Hq Hu Hc. destruct_world w. cbn in Ha, Hq, Hu, Hc. subst.
    unfold draw, dequeue, forceDraw, performDraw, backend_swap, queue_isEmpty,
      queue_dequeue, free_append, invokeQueued, drawFrames, new_calls.
    unfold_M.
    destruct c as [dims [] []], x, m_messagePainter0, m_swapTimer0;
      cbn; (eexists; split; [reflexivity|]); cbn;
      rewrite <- ?app_assoc, drop_app_length; cbn; split_and!; reflexivity.
  - intros w backing w' Ha H. split; [apply (steady_enqueue _ _ _ _ H)|].
    destruct (enqueue_Ok_inv _ _ _ H) as [(_ & ->)|[(? & ? & ? & ? & _ & _ & _ & ->)|(? & ? & ? & ? & _ & _ & _ & _ & ->)]];
      exact Ha.
Qed.

(** *** Runs from the constructor *)

Lemma reachable_run_ops l :
  ∀ w w', reachable w → run_ops l w = Ok tt w' → reachable w'.
Proof.
  induction l as [|o l IH]; intros w w' Hr H.
  - unfold run_ops, ret in H. by injection H as <-.
  - cbn in H. apply bind_Ok_inv in H as ([] & w1 & Ho & H).
    eapply IH; [|exact H]. by eapply reachable_step.
Qed.

Lemma reachable_boot w0 majorVersion fbo l w :
  blank w0 → boot majorVersion fbo l w0 = Ok tt w → reachable w.
Proof.
  intros Hb H. unfold boot in H.
  apply bind_Ok_inv in H as ([] & w1 & Hc & H).
  eapply reachable_run_ops; [|exact H]. by eapply reachable_ctor.
Qed.

(** *** Further properties: the queue *)

(** X1: [enqueue] succeeds exactly when there is nothing to copy, or
    when a core is bound, the frame fits (its width, height and area and
    the bytes per pixel are [int]s, and its size in bytes is an [int] no
    larger than a frame buffer nor than what the source holds) and there
    is a buffer to copy into: one in the free pool, or one at the front
    of the queue. *)
Theorem enqueue_succeeds_iff w backing :
  (∃ w', enqueue backing w = Ok tt w') ↔
  backing = None ∨
  (∃ src c,
     backing = Some src ∧
     m_context (painter w) = Some c ∧
     frame_fits c src = true ∧
     (m_free (painter w) ≠ [] ∨ ∃ b q, m_queue (painter w) = Some b :: q)).
Proof.
  split.
  - intros [w' H]. destruct backing as [src|]; [right|by left].
    destruct (enqueue_Ok_fits _ _ _ H) as (c & Hc & Hfit).
    exists src, c. split_and!; try done.
    destruct (enqueue_Ok_inv _ _ _ H)
      as [(? & _)|[(? & f & b & ? & _ & Hf & _)|(? & b & q & ? & _ & _ & Hq & _)]].
    + done.
    + left. rewrite Hf. by destruct f.
    + right. eauto.
  - intros [->|(src & c & -> & Hc & Hfit & Hbuf)].
    + eexists. apply enqueue_null.
    + destruct (snoc_cases (m_free (painter w))) as [Hf|(f & b & Hf)].
      * destruct Hbuf as [Hne|(b & q & Hq)]; [done|].
        eexists. by apply enqueue_from_queue.
      * eexists. by eapply enqueue_from_free.
Qed.

(** X2: frames come out in the order they went in, with their bytes.
    With an empty queue and two distinct buffers at the end of the free
    pool, two frames that fit, enqueued and followed by two [dequeue]s,
    hand the two buffers to [postFrame] in the order of the frames, each
    holding the bytes of its frame, and put both back in the free pool. *)
Theorem frames_come_out_in_order w s1 s2 f b0 b1 c old0 old1 :
  m_queue (painter w) = [] →
  m_free (painter w) = f ++ [b0; b1] →
  m_context (painter w) = Some c →
  frame_fits c s1 = true →
  frame_fits c s2 = true →
  b0 ≠ b1 →
  mem w !! b0 = Some old0 →
  mem w !! b1 = Some old1 →
  ∃ w', run_ops [p_enqueue (Some s1); p_enqueue (Some s2); p_dequeue; p_dequeue] w
          = Ok tt w' ∧
        posted_buffers (new_calls w w') = [b1; b0] ∧
        mem w' !! b1 = Some (take (frame_bytes c) s1 ++ drop (frame_bytes c) old1) ∧
        mem w' !! b0 = Some (take (frame_bytes c) s2 ++ drop (frame_bytes c) old0) ∧
        m_queue (painter w') = [] ∧
        m_free (painter w') = f ++ [b1; b0].
Proof.
  intros Hq Hf Hc Hfit1 Hfit2 Hne H0 H1.
  assert (m_free (painter w) = (f ++ [b0]) ++ [b1]) as Hf1
    by (rewrite Hf, <- app_assoc; reflexivity).
  eexists. split.
  - cbn [run_ops run_op]. unfold bind at 1.
    rewrite (enqueue_from_free w s1 (f ++ [b0]) b1 c Hf1 Hc Hfit1).
    unfold bind at 1.
    erewrite (enqueue_from_free _ s2 f b0 c); [|reflexivity|exact Hc|exact Hfit2].
    unfold bind at 1.
    erewrite (dequeue_buffer _ b1 [Some b0]); [|cbn; rewrite Hq; reflexivity].
    unfold bind at 1.
    erewrite (dequeue_buffer _ b0 []); [|reflexivity].
    reflexivity.
  - cbn. split_and!.
    + erewrite new_calls_app by (cbn; rewrite <- !app_assoc; reflexivity).
      reflexivity.
    + rewrite lookup_alter_ne by done. rewrite lookup_alter_eq, H1. reflexivity.
    + rewrite lookup_alter_eq, lookup_alter_ne, H0 by done. reflexivity.
    + reflexivity.
    + rewrite <- !app_assoc. reflexivity.
Qed.

(** X3: null entries are never dropped on the way in: [k] null frames
    in a row make the queue [k] entries longer, and touch nothing else. *)
Theorem null_frames_accumulate k :
  ∀ w, ∃ w', run_ops (replicate k (p_enqueue None)) w = Ok tt w' ∧
             m_queue (painter w') = m_queue (painter w) ++ replicate k None ∧
             m_free (painter w') = m_free (painter w) ∧
             mem w' = mem w ∧ trace w' = trace w ∧ pending w' = pending w.
Proof.
  induction k as [|k IH]; intros w.
  - exists w. cbn. rewrite app_nil_r. split_and!; reflexivity.
  - destruct (IH (upd_painter (λ p, set_m_queue (m_queue p ++ [None]) p) w))
      as (w' & Hrun & Hq & Hf & Hm & Ht & Hp).
    exists w'. split_and!; try assumption.
    cbn in Hq. rewrite Hq, <- app_assoc. reflexivity.
Qed.

(** *** Further properties: drawing and presenting *)

Ltac unfold_painter :=
  unfold draw, swap, dispatch, timeout, run_slot, resize, lockAspectRatio,
    lockIntegerScaling, PainterGL_filter, dequeue, forceDraw, performDraw,
    backend_swap, gl_makeCurrent, gl_doneCurrent, queue_isEmpty, queue_dequeue,
    free_append, invokeQueued;
  unfold when, emit, gets, modify, fail, deref, bind, ret.

Ltac unfold_painter_in H :=
  unfold draw, swap, dispatch, timeout, run_slot, resize, lockAspectRatio,
    lockIntegerScaling, PainterGL_filter, dequeue, forceDraw, performDraw,
    backend_swap, gl_makeCurrent, gl_doneCurrent, queue_isEmpty, queue_dequeue,
    free_append, invokeQueued in H;
  unfold when, emit, gets, modify, fail, deref, bind, ret in H.

Ltac count_new_calls :=
  unfold drawFrames, count_calls, posted_buffers, new_calls; cbn;
  rewrite <- ?app_assoc, ?length_app, ?drop_app_add, ?drop_app_length, ?drop_all; cbn.

Ltac finish :=
  match goal with
  | |- context [new_calls] => count_new_calls; reflexivity
  | |- context [drawFrames] => count_new_calls; reflexivity
  | |- _ => cbn; rewrite ?app_nil_r; reflexivity
  end.

(** X4: a [draw] that goes ahead takes exactly one entry off the queue.
    With a non-empty queue, no handshake held and a core bound, [draw]
    asks the core once for the frame start, hands the front entry to
    [postFrame] and returns it to the free pool if it is a buffer, calls
    [drawFrame] once, leaves a frame ready and the swap timer running,
    and either answers the core at once or, when the core has
    [videoFrameWait] set, holds the handshake for the next [swap]. *)
Theorem draw_takes_one_frame w x q c :
  m_queue (painter w) = x :: q →
  m_needsUnlock (painter w) = false →
  m_context (painter w) = Some c →
  ∃ w', draw w = Ok tt w' ∧
        m_queue (painter w') = q ∧
        m_free (painter w') = m_free (painter w) ++ buffer_of x ∧
        posted_buffers (new_calls w w') = buffer_of x ∧
        drawFrames w w' = 1 ∧
        count_calls ev_waitFrameStart (new_calls w w') = 1 ∧
        count_calls ev_waitFrameEnd (new_calls w w') = (if videoFrameWait c then 0 else 1) ∧
        m_needsUnlock (painter w') = videoFrameWait c ∧
        m_frameReady (painter w') = true ∧
        m_swapTimer (painter w') = true.
Proof.
  intros Hq Hu Hc. destruct_world w. cbn in Hq, Hu, Hc. subst.
  unfold_painter.
  destruct c as [dims [] []], x, m_messagePainter0, m_swapTimer0;
    cbn; eexists; split_and!; finish.
Qed.

(** X5: a [draw] that finds the handshake still held does nothing but
    queue itself again; once [swap] has released the handshake, the
    queued [draw] runs and draws the frame.  Without a frame in the queue
    [draw] does nothing at all, core or no core. *)
Theorem held_draw_is_deferred :
  (∀ w, m_queue (painter w) = [] → draw w = Ok tt w) ∧
  (∀ w x q c,
     m_queue (painter w) = x :: q →
     m_needsUnlock (painter w) = true →
     m_context (painter w) = Some c →
     gl_valid (gl w) = true →
     pending w = [] →
     ∃ w1 w2 w3,
       draw w = Ok tt w1 ∧ w1 = set_pending [s_draw] w ∧
       swap w1 = Ok tt w2 ∧
       m_needsUnlock (painter w2) = false ∧
       count_calls ev_waitFrameEnd (new_calls w1 w2) = 1 ∧
       dispatch w2 = Ok tt w3 ∧
       drawFrames w2 w3 = 1 ∧
       m_queue (painter w3) = q).
Proof.
  split.
  - intros w Hq. unfold draw, queue_isEmpty. unfold_M. rewrite Hq. reflexivity.
  - intros w x q c Hq Hu Hc Hv Hp. destruct_world w. destruct gl0 as [valid current th].
    cbn in Hq, Hu, Hc, Hv, Hp. subst.
    unfold_painter.
    destruct c as [dims [] []], x, m_messagePainter0, m_swapTimer0, m_frameReady0;
      cbn; do 3 eexists; split_and!; finish.
Qed.

(** X6: a change of size, of the aspect-ratio lock, of the integer
    scaling lock or of the filter is stored and redraws the frame at once
    exactly when the painter is started and paused; an active painter, or
    one that never started, stores the value and draws nothing. *)
Theorem redraw_only_when_started_and_paused w :
  (∀ size, ∃ w', resize size w = Ok tt w' ∧
                 drawFrames w w' = forced_redraws w ∧
                 m_size (painter w') = size) ∧
  (∀ lock, ∃ w', lockAspectRatio lock w = Ok tt w' ∧
                 drawFrames w w' = forced_redraws w ∧
                 vb_lockAspectRatio (backend w') = lock ∧
                 m_size (painter w') = m_size (painter w)) ∧
  (∀ lock, ∃ w', lockIntegerScaling lock w = Ok tt w' ∧
                 drawFrames w w' = forced_redraws w ∧
                 vb_lockIntegerScaling (backend w') = lock ∧
                 m_size (painter w') = m_size (painter w)) ∧
  (∀ f, ∃ w', PainterGL_filter f w = Ok tt w' ∧
              drawFrames w w' = forced_redraws w ∧
              vb_filter (backend w') = f).
Proof.
  destruct_world w. unfold forced_redraws. cbn.
  split_and!; intros v; unfold_painter;
    destruct m_started0, m_active0, m_messagePainter0, m_swapTimer0;
    cbn; eexists; split_and!; finish.
Qed.

(** X7: a composed frame is presented once.  With a valid GL context
    (and a core bound if a handshake is held), after [forceDraw] the next
    expiry of the swap timer calls [swapBuffers] once and clears
    [m_frameReady], and the expiry after that presents nothing. *)
Theorem composed_frame_is_presented_once w :
  gl_valid (gl w) = true →
  (m_needsUnlock (painter w) = true → is_Some (m_context (painter w))) →
  ∃ w1 w2 w3,
    forceDraw w = Ok tt w1 ∧
    timeout w1 = Ok tt w2 ∧
    count_calls ev_swapBuffers (new_calls w1 w2) = 1 ∧
    m_frameReady (painter w2) = false ∧
    timeout w2 = Ok tt w3 ∧
    count_calls ev_swapBuffers (new_calls w2 w3) = 0.
Proof.
  intros Hv Hctx. destruct_world w. destruct gl0 as [valid current th].
  cbn in Hv, Hctx. subst.
  unfold_painter.
  destruct m_needsUnlock0;
    [destruct Hctx as [c Hc]; [reflexivity|]; subst|];
    destruct m_queue0, m_messagePainter0, m_swapTimer0;
    cbn; do 3 eexists; split_and!; finish.
Qed.

(** *** Further properties: what every run keeps *)

Lemma count_calls_app e l k :
  count_calls e (l ++ k) = count_calls e l + count_calls e k.
Proof. unfold count_calls. by rewrite filter_app, length_app. Qed.

(** A call that is not part of the handshake leaves it balanced. *)
Lemma balanced_emit e :
  e ≠ ev_waitFrameStart → e ≠ ev_waitFrameEnd →
  keeps handshake_balanced (emit e).
Proof.
  intros Hs He. apply keeps_modify. intros w HI.
  unfold handshake_balanced in *. cbn. rewrite !count_calls_app.
  unfold count_calls at 2 4. cbn.
  repeat (case_decide; try done). cbn. lia.
Qed.

Lemma balanced_draw : keeps handshake_balanced draw.
Proof.
  intros w [] w' HI H. destruct_world w.
  unfold handshake_balanced in HI. cbn in HI.
  unfold_painter_in H.
  destruct m_queue0 as [|x q]; cbn in H; [by injection H as <-|].
  destruct m_needsUnlock0; cbn in H; [by injection H as <-|].
  destruct m_context0 as [[dims [] []]|], x, m_messagePainter0, m_swapTimer0;
    cbn in H; try discriminate; injection H as <-;
    unfold handshake_balanced, count_calls in *; cbn in *;
    rewrite ?filter_app, ?length_app; cbn;
    repeat (case_decide; try done); cbn; lia.
Qed.

Lemma balanced_swap : keeps handshake_balanced swap.
Proof.
  intros w [] w' HI H. destruct_world w. destruct gl0 as [[] current th].
  - unfold handshake_balanced in HI. cbn in HI.
    unfold_painter_in H.
    destruct m_frameReady0, m_needsUnlock0, m_context0, m_queue0;
      cbn in H; try discriminate; injection H as <-;
      unfold handshake_balanced, count_calls in *; cbn in *;
      rewrite ?filter_app, ?length_app; cbn;
      repeat (case_decide; try done); cbn; lia.
  - unfold swap in H. unfold_M. cbn in H. by injection H as <-.
Qed.

Hint Resolve balanced_draw balanced_swap : keeps.
Hint Extern 1 (keeps handshake_balanced (emit _)) =>
  apply balanced_emit; discriminate : keeps.

Lemma balanced_dequeueAll_loop fuel :
  ∀ buffer, keeps handshake_balanced (dequeueAll_loop fuel buffer).
Proof. induction fuel; intros buffer; cbn [dequeueAll_loop]; keeps_tac. Qed.

Hint Resolve balanced_dequeueAll_loop : keeps.

Lemma balanced_run_slot s : keeps handshake_balanced (run_slot s).
Proof. keeps_tac. Qed.

Hint Resolve balanced_run_slot : keeps.

Lemma balanced_run_slots l : keeps handshake_balanced (run_slots l).
Proof. induction l; cbn [run_slots]; keeps_tac. Qed.

Hint Resolve balanced_run_slots : keeps.

Lemma balanced_run_op o : keeps handshake_balanced (run_op o).
Proof. destruct o; cbn [run_op]; keeps_tac. Qed.

Lemma DisplayGL_ctor_balanced w0 majorVersion fbo w :
  blank w0 →
  DisplayGL_ctor majorVersion fbo w0 = Ok tt w →
  handshake_balanced w ∧ same_thread w.
Proof.
  intros (_ & _ & Ht & _ & Hgl & Hproxy & _) H.
  unfold DisplayGL_ctor, PainterGL_ctor, gl_makeCurrent, gl_doneCurrent in H.
  cbn in H. unfold new_buffer, free_append in H.
  unfold emit, gets, modify, bind, ret in H. cbn in H.
  injection H as <-.
  unfold handshake_balanced, same_thread. cbn. rewrite Ht, Hgl, Hproxy.
  split_and!; reflexivity.
Qed.

(** X8: the handshake with the core stays balanced.  In every world a
    display can reach, the calls of [mCoreSyncWaitFrameStart] made so far
    are as many as the calls of [mCoreSyncWaitFrameEnd], plus one when
    the painter holds the handshake ([m_needsUnlock]): no frame start is
    answered twice, and none is left unanswered but the one held. *)
Theorem handshake_stays_balanced w :
  reachable w →
  count_calls ev_waitFrameStart (trace w) =
  count_calls ev_waitFrameEnd (trace w) + (if m_needsUnlock (painter w) then 1 else 0).
Proof.
  induction 1 as [w0 mv fbo w Hb Hc | w o w' _ IH Hstep].
  - by destruct (DisplayGL_ctor_balanced _ _ _ _ Hb Hc).
  - exact (balanced_run_op o w tt w' IH Hstep).
Qed.

Lemma stop_Ok_inv w w1 :
  stop w = Ok tt w1 →
  m_queue (painter w1) = [] ∧
  m_free (painter w1) = m_free (painter w) ++ nonnull (m_queue (painter w)) ∧
  m_active (painter w1) = false ∧
  m_started (painter w1) = false ∧
  m_swapTimer (painter w1) = false ∧
  m_context (painter w1) = None ∧
  gl_current (gl w1) = false ∧
  gl_thread (gl w1) = GuiThread ∧
  p_thread (painter w1) = GuiThread ∧
  proxy_thread w1 = GuiThread ∧
  display w1 = display w.
Proof.
  intros H. destruct_world w. destruct gl0 as [valid current th].
  unfold stop, backend_swap, swap, gl_doneCurrent, gl_makeCurrent,
    queue_isEmpty, invokeQueued in H.
  unfold when, emit, gets, modify, fail, deref, bind, ret in H.
  rewrite dequeueAll_spec in H. cbn in H.
  destruct (last m_queue0) as [[?|]|], m_swapTimer0, valid, m_frameReady0,
    m_needsUnlock0, m_context0, m_videoProxy0;
    cbn in H; try discriminate; injection H as <-;
    cbn; split_and!; reflexivity.
Qed.

Lemma thread_stop : keeps same_thread stop.
Proof.
  intros w [] w' _ H. unfold stop in H.
  do 5 (apply bind_Ok_inv in H as ([] & ? & _ & H)).
  apply bind_Ok_inv in H as (active & ? & _ & H).
  apply bind_Ok_inv in H as ([] & ? & _ & H).
  apply bind_Ok_inv in H as (proxy & ? & _ & H).
  do 2 (apply bind_Ok_inv in H as ([] & ? & _ & H)).
  unfold modify, gets, bind, fail in H. cbn in H.
  destruct proxy; [|discriminate]. injection H as <-. split; reflexivity.
Qed.

Lemma thread_dequeueAll_loop fuel :
  ∀ buffer, keeps same_thread (dequeueAll_loop fuel buffer).
Proof. induction fuel; intros buffer; cbn [dequeueAll_loop]; keeps_tac. Qed.

Hint Resolve thread_stop thread_dequeueAll_loop : keeps.

Lemma thread_run_slot s : keeps same_thread (run_slot s).
Proof. keeps_tac. Qed.

Hint Resolve thread_run_slot : keeps.

Lemma thread_run_slots l : keeps same_thread (run_slots l).
Proof. induction l; cbn [run_slots]; keeps_tac. Qed.

Hint Resolve thread_run_slots : keeps.

Lemma thread_startDrawing controller : keeps same_thread (startDrawing controller).
Proof.
  intros w [] w' HI H. unfold startDrawing in H.
  apply bind_Ok_inv in H as (t & w1 & Ht & H).
  unfold drawThread_set, gets in Ht. injection Ht as <- <-.
  destruct (d_drawThread (display w)).
  { unfold ret in H. by injection H as <-. }
  do 4 (apply bind_Ok_inv in H as ([] & ? & _ & H)).
  apply bind_Ok_inv in H as (size & ? & _ & H).
  do 3 (apply bind_Ok_inv in H as ([] & ? & _ & H)).
  do 3 (apply bind_Ok_inv in H as ([] & ? & Hm & H);
        unfold modify in Hm; injection Hm as <-).
  match type of H with
  | ?c ?w0 = _ => assert (keeps same_thread c) as Hk by keeps_tac;
                  apply (Hk w0 tt w'); [split; reflexivity | exact H]
  end.
Qed.

Hint Resolve thread_startDrawing : keeps.

Lemma thread_run_op o : keeps same_thread (run_op o).
Proof. destruct o; cbn [run_op]; keeps_tac. Qed.

Lemma threads_dequeueAll_loop T fuel :
  ∀ buffer, keeps (λ w, threads w = T) (dequeueAll_loop fuel buffer).
Proof. induction fuel; intros buffer; cbn [dequeueAll_loop]; keeps_tac. Qed.

Hint Resolve threads_dequeueAll_loop : keeps.

Lemma threads_run_slot T s : keeps (λ w, threads w = T) (run_slot s).
Proof. keeps_tac. Qed.

Hint Resolve threads_run_slot : keeps.

Lemma threads_run_slots T l : keeps (λ w, threads w = T) (run_slots l).
Proof. induction l; cbn [run_slots]; keeps_tac. Qed.

Hint Resolve threads_run_slots : keeps.

Lemma threads_run_op T o :
  moves_threads o = false → keeps (λ w, threads w = T) (run_op o).
Proof. destruct o; try discriminate; intros _; cbn [run_op]; keeps_tac. Qed.

Lemma threads_startDrawing controller w w' :
  d_drawThread (display w) = None →
  startDrawing controller w = Ok tt w' →
  threads w' = (PainterThread, PainterThread, PainterThread).
Proof.
  intros Hd H. unfold startDrawing in H.
  apply bind_Ok_inv in H as (t & w1 & Ht & H).
  unfold drawThread_set, gets in Ht. injection Ht as <- <-.
  rewrite Hd in H.
  do 4 (apply bind_Ok_inv in H as ([] & ? & _ & H)).
  apply bind_Ok_inv in H as (size & ? & _ & H).
  do 3 (apply bind_Ok_inv in H as ([] & ? & _ & H)).
  do 3 (apply bind_Ok_inv in H as ([] & ? & Hm & H);
        unfold modify in Hm; injection Hm as <-).
  match type of H with
  | ?c ?w0 = _ =>
      assert (keeps (λ w, threads w = (PainterThread, PainterThread, PainterThread)) c)
        as Hk by keeps_tac;
      apply (Hk w0 tt w'); [reflexivity | exact H]
  end.
Qed.

Lemma threads_stopDrawing w t w' :
  d_drawThread (display w) = Some t →
  stopDrawing w = Ok tt w' →
  threads w' = (GuiThread, GuiThread, GuiThread).
Proof.
  intros Hd H. unfold stopDrawing in H.
  apply bind_Ok_inv in H as (b & w1 & Ht & H).
  unfold drawThread_set, gets in Ht. injection Ht as <- <-.
  rewrite Hd in H. unfold when in H.
  apply bind_Ok_inv in H as ([] & w2 & H & Hm).
  unfold modify in Hm. injection Hm as <-.
  do 2 (apply bind_Ok_inv in H as ([] & ? & _ & H)).
  apply bind_Ok_inv in H as ([] & w3 & Hstop & H).
  unfold invokeBlocking in Hstop.
  apply bind_Ok_inv in Hstop as (l & ? & _ & Hstop).
  do 2 (apply bind_Ok_inv in Hstop as ([] & ? & _ & Hstop)).
  apply stop_Ok_inv in Hstop as (_ & _ & _ & _ & _ & _ & _ & Hg & Hp & Hx & _).
  match type of H with
  | ?c ?w0 = _ =>
      assert (keeps (λ w, threads w = (GuiThread, GuiThread, GuiThread)) c)
        as Hk by keeps_tac;
      apply (Hk w0 tt w2); [|exact H]
  end.
  unfold threads. by rewrite Hg, Hp, Hx.
Qed.

(** X9: the GL context, the painter and the video proxy always belong
    to one and the same thread.  [startDrawing] on a display with no draw
    thread moves the three of them to the draw thread; [stop], and so
    [stopDrawing] on a display with a draw thread, moves the three of
    them back to the GUI thread; and nothing else moves any of them:
    [startDrawing] with a draw thread, [stopDrawing] without one and
    every other operation leave each of the three where it was. *)
Theorem context_painter_proxy_share_a_thread :
  (∀ w, reachable w →
        gl_thread (gl w) = p_thread (painter w) ∧ proxy_thread w = p_thread (painter w)) ∧
  (∀ w controller w',
     d_drawThread (display w) = None →
     startDrawing controller w = Ok tt w' →
     threads w' = (PainterThread, PainterThread, PainterThread)) ∧
  (∀ w w', stop w = Ok tt w' → threads w' = (GuiThread, GuiThread, GuiThread)) ∧
  (∀ w t w',
     d_drawThread (display w) = Some t →
     stopDrawing w = Ok tt w' →
     threads w' = (GuiThread, GuiThread, GuiThread)) ∧
  (∀ w controller t w',
     d_drawThread (display w) = Some t →
     startDrawing controller w = Ok tt w' → threads w' = threads w) ∧
  (∀ w w',
     d_drawThread (display w) = None →
     stopDrawing w = Ok tt w' → threads w' = threads w) ∧
  (∀ o w w',
     moves_threads o = false →
     run_op o w = Ok tt w' → threads w' = threads w).
Proof.
  split_and!.
  - induction 1 as [w0 mv fbo w Hb Hc | w o w' _ IH Hstep].
    + by destruct (DisplayGL_ctor_balanced _ _ _ _ Hb Hc).
    + exact (thread_run_op o w tt w' IH Hstep).
  - intros w controller w'. apply threads_startDrawing.
  - intros w w' H.
    apply stop_Ok_inv in H as (_ & _ & _ & _ & _ & _ & _ & Hg & Hp & Hx & _).
    unfold threads. by rewrite Hg, Hp, Hx.
  - apply threads_stopDrawing.
  - intros w controller t w' Hd H.
    assert (startDrawing controller w = Ok tt w) as Hsame
      by (unfold startDrawing, drawThread_set; unfold_M; rewrite Hd; reflexivity).
    rewrite Hsame in H. by injection H as <-.
  - intros w w' Hd H.
    assert (stopDrawing w = Ok tt (upd_display (set_d_context None) w)) as Hsame
      by (unfold stopDrawing, drawThread_set; unfold_M; rewrite Hd; reflexivity).
    rewrite Hsame in H. by injection H as <-.
  - intros o w w' Ho H.
    exact (threads_run_op (threads w) o Ho w tt w' eq_refl H).
Qed.

(** *** Further properties: starting and stopping *)

(** X10: [startDrawing] on a display that is not drawing, whose
    painter is not started and has nothing queued, leaves it drawing:
    the core is bound on both sides, the painter is started and active
    with the size of the widget, the backend has the widget's locks and
    filter, the GL context is current on the draw thread, to which
    context, painter and proxy now belong, every queued call has run, and
    no frame has been drawn. *)
Theorem startDrawing_activates w controller :
  d_drawThread (display w) = None →
  m_started (painter w) = false →
  pending w = [] →
  ∃ w', startDrawing controller w = Ok tt w' ∧
        d_drawThread (display w') = Some PainterThread ∧
        d_isDrawing (display w') = true ∧
        d_context (display w') = controller ∧
        m_context (painter w') = controller ∧
        m_active (painter w') = true ∧
        m_started (painter w') = true ∧
        m_size (painter w') = d_size (display w) ∧
        vb_lockAspectRatio (backend w') = d_lockAspectRatio (display w) ∧
        vb_lockIntegerScaling (backend w') = d_lockIntegerScaling (display w) ∧
        vb_filter (backend w') = d_filter (display w) ∧
        gl_current (gl w') = true ∧
        gl_thread (gl w') = PainterThread ∧
        p_thread (painter w') = PainterThread ∧
        proxy_thread w' = PainterThread ∧
        pending w' = [] ∧
        drawFrames w w' = 0 ∧
        m_queue (painter w') = m_queue (painter w) ∧
        m_free (painter w') = m_free (painter w).
Proof.
  intros Ht Hs Hp. destruct_world w. cbn in Ht, Hs, Hp. subst.
  unfold startDrawing, drawThread_set, setContext, resizeContext, setMessagePainter,
    resizePainter, invokeBlocking, DisplayGL_lockAspectRatio,
    DisplayGL_lockIntegerScaling, DisplayGL_filter, start.
  unfold_painter.
  destruct controller, m_active0, m_supportsShaders0, m_shader0;
    cbn; eexists; split_and!; finish.
Qed.

(** The slots of the painter leave the widget alone. *)
Lemma display_dequeueAll_loop D fuel :
  ∀ buffer, keeps (λ w, display w = D) (dequeueAll_loop fuel buffer).
Proof. induction fuel; intros buffer; cbn [dequeueAll_loop]; keeps_tac. Qed.

Hint Resolve display_dequeueAll_loop : keeps.

Lemma display_run_slot D s : keeps (λ w, display w = D) (run_slot s).
Proof. keeps_tac. Qed.

Hint Resolve display_run_slot : keeps.

Lemma display_run_slots D l : keeps (λ w, display w = D) (run_slots l).
Proof. induction l; cbn [run_slots]; keeps_tac. Qed.

(** X11: a completed [stopDrawing] on a drawing display gives
    everything back.  The pending queue is empty and every buffer is in
    the free pool; the painter is neither active nor started, its swap
    timer is stopped and its core is released, as is the widget's; the
    draw thread is gone, and context, painter and proxy belong to the GUI
    thread again, where the context is current. *)
Theorem stopDrawing_gives_everything_back w t w1 :
  d_drawThread (display w) = Some t →
  stopDrawing w = Ok tt w1 →
  m_queue (painter w1) = [] ∧
  m_free (painter w1) ≡ₚ pool w ∧
  m_active (painter w1) = false ∧
  m_started (painter w1) = false ∧
  m_swapTimer (painter w1) = false ∧
  m_context (painter w1) = None ∧
  d_context (display w1) = None ∧
  d_drawThread (display w1) = None ∧
  d_isDrawing (display w1) = false ∧
  gl_current (gl w1) = true ∧
  gl_thread (gl w1) = GuiThread ∧
  p_thread (painter w1) = GuiThread ∧
  proxy_thread w1 = GuiThread.
Proof.
  intros Ht H.
  pose proof (steady_stopDrawing _ _ _ H) as (Hpool & _).
  unfold stopDrawing in H.
  apply bind_Ok_inv in H as (b & w0 & Hb & H).
  unfold drawThread_set, gets in Hb. injection Hb as <- <-. rewrite Ht in H.
  apply bind_Ok_inv in H as ([] & w2 & H & Hlast).
  unfold modify in Hlast. injection Hlast as <-.
  unfold when in H.
  apply bind_Ok_inv in H as ([] & wa & Hwa & H).
  unfold modify in Hwa. injection Hwa as <-.
  apply bind_Ok_inv in H as ([] & wb & Hwb & H).
  unfold emit, modify in Hwb. injection Hwb as <-.
  apply bind_Ok_inv in H as ([] & ws & Hstop & H).
  unfold invokeBlocking in Hstop.
  apply bind_Ok_inv in Hstop as (l & wc & Hwc & Hstop).
  unfold gets in Hwc. injection Hwc as <- <-.
  apply bind_Ok_inv in Hstop as ([] & wd & Hwd & Hstop).
  unfold modify in Hwd. injection Hwd as <-.
  apply bind_Ok_inv in Hstop as ([] & we & Hslots & Hstop).
  eapply display_run_slots in Hslots; [|reflexivity]. cbn in Hslots.
  apply stop_Ok_inv in Hstop
    as (Hq & _ & Ha & Hs & Htimer & Hc & _ & Hgl & Hp & Hproxy & Hd).
  rewrite Hslots in Hd.
  unfold gl_makeCurrent in H. unfold emit, modify, bind in H. cbn in H.
  injection H as <-. cbn in *.
  assert (m_free (painter ws) ≡ₚ pool w) as Hfree.
  { rewrite <- Hpool. unfold pool. cbn. rewrite Hq. cbn. by rewrite app_nil_r. }
  rewrite Hd. split_and!; done.
Qed.

(** X12: what the widget is asked after a completed [stopDrawing] is
    dropped: a posted frame reaches neither the queue nor the core, and
    no draw, pause, unpause or resize is passed on to the painter; the
    world stays as [stopDrawing] left it. *)
Theorem calls_after_stopDrawing_are_dropped w w1 :
  stopDrawing w = Ok tt w1 →
  (∀ frame, framePosted frame w1 = Ok tt w1) ∧
  DisplayGL_forceDraw w1 = Ok tt w1 ∧
  pauseDrawing w1 = Ok tt w1 ∧
  unpauseDrawing w1 = Ok tt w1 ∧
  DisplayGL_resizeContext w1 = Ok tt w1 ∧
  resizePainter w1 = Ok tt w1.
Proof.
  intros H. apply stopDrawing_Ok_inv in H as (Ht & _).
  unfold framePosted, DisplayGL_forceDraw, pauseDrawing, unpauseDrawing,
    DisplayGL_resizeContext, resizePainter, drawThread_set.
  unfold_M. rewrite Ht. split_and!; reflexivity.
Qed.


(** X14: when both buffers are queued, the oldest frame is dropped.
    With an empty free pool and the two buffers in the queue, a third
    frame that fits is copied over the oldest one, and the two
    [dequeue]s that follow hand [postFrame] the second frame and then
    the third: the first frame is never posted. *)
Theorem oldest_frame_is_dropped w s3 b0 b1 c old0 :
  m_free (painter w) = [] →
  m_queue (painter w) = [Some b0; Some b1] →
  m_context (painter w) = Some c →
  frame_fits c s3 = true →
  b0 ≠ b1 →
  mem w !! b0 = Some old0 →
  ∃ w', run_ops [p_enqueue (Some s3); p_dequeue; p_dequeue] w = Ok tt w' ∧
        posted_buffers (new_calls w w') = [b1; b0] ∧
        mem w' !! b0 = Some (take (frame_bytes c) s3 ++ drop (frame_bytes c) old0) ∧
        mem w' !! b1 = mem w !! b1 ∧
        m_queue (painter w') = [] ∧
        m_free (painter w') = [b1; b0].
Proof.
  intros Hf Hq Hc Hfit Hne H0.
  eexists. split.
  - cbn [run_ops run_op]. unfold bind at 1.
    rewrite (enqueue_from_queue w s3 b0 [Some b1] c Hf Hq Hc Hfit).
    unfold bind at 1.
    erewrite (dequeue_buffer _ b1 [Some b0]); [|reflexivity].
    unfold bind at 1.
    erewrite (dequeue_buffer _ b0 []); [|reflexivity].
    reflexivity.
  - cbn. rewrite Hf. split_and!.
    + erewrite new_calls_app by (cbn; rewrite <- !app_assoc; reflexivity).
      reflexivity.
    + rewrite lookup_alter_eq, H0. reflexivity.
    + by rewrite lookup_alter_ne.
    + reflexivity.
    + reflexivity.
Qed.


End DisplayGL.

(** ** The statements on concrete runs *)

Lemma blank_powered_off : blank powered_off.
Proof. repeat split. Qed.

(** The worlds of the runs are worlds a display can reach. *)
Lemma reachable_one_pending : reachable 4 (w_one_pending 4).
Proof.
  apply (reachable_boot 4 powered_off 3 true one_pending).
  - apply blank_powered_off.
  - vm_compute. reflexivity.
Qed.


(** C1, as the specification has it, fails: with a frame in buffer 2
    and then a null entry in the queue, the last buffer of the queue is
    buffer 2, and [dequeueAll] hands nothing to [postFrame]. *)
Lemma dequeueAll_trailing_null_posts_nothing :
  boot 4 3 true frame_then_null powered_off = Ok tt (w_frame_then_null 4) ∧
  m_queue (painter (w_frame_then_null 4)) = [Some 2; None] ∧
  last (nonnull (m_queue (painter (w_frame_then_null 4)))) = Some 2 ∧
  (∃ w', dequeueAll (w_frame_then_null 4) = Ok tt w' ∧
         m_free (painter w') = [1; 2] ∧
         new_calls (w_frame_then_null 4) w' = []) ∧
  ¬ posts_last_nonnull (w_frame_then_null 4).
Proof.
  split_and!; [vm_compute; reflexivity..| |].
  - eexists. split_and!; vm_compute; reflexivity.
  - intros (w' & H & Hcalls). vm_compute in H. injection H as <-.
    vm_compute in Hcalls. discriminate.
Qed.

(** C2, as the specification has it, fails: with one frame pending in
    buffer 2, [dequeueAll] hands buffer 2 to [postFrame] at a moment when
    buffer 2 is in the free pool. *)
Lemma dequeueAll_posts_buffer_in_free_pool :
  reachable 4 (w_one_pending 4) ∧
  (∃ w' c, dequeueAll (w_one_pending 4) = Ok tt w' ∧
           c ∈ new_calls (w_one_pending 4) w' ∧
           what c = ev_postFrame 2 ∧
           2 ∈ free_then c) ∧
  ¬ posts_unowned_buffer (w_one_pending 4).
Proof.
  assert (∃ w' c, dequeueAll (w_one_pending 4) = Ok tt w' ∧
                  c ∈ new_calls (w_one_pending 4) w' ∧
                  what c = ev_postFrame 2 ∧
                  2 ∈ free_then c) as Hcall.
  { eexists. eexists. split_and!.
    - vm_compute. reflexivity.
    - vm_compute. constructor.
    - reflexivity.
    - cbn. do 2 constructor. }
  split_and!; [apply reachable_one_pending | exact Hcall |].
  intros Hspec. destruct Hcall as (w' & c & Hrun & Hin & Hwhat & Hfree).
  destruct (Hspec w' c 2 Hrun Hin Hwhat) as [Hnot _]. exact (Hnot Hfree).
Qed.

(** C3, as the specification has it, fails: after [pauseDrawing], with
    one frame posted, the painter is not active, and [draw] calls the
    backend's [drawFrame]. *)
Lemma draw_while_paused_draws :
  boot 4 3 true paused_with_frame powered_off = Ok tt (w_paused 4) ∧
  m_active (painter (w_paused 4)) = false ∧
  (∃ w', draw (w_paused 4) = Ok tt w' ∧ drawFrames (w_paused 4) w' = 1) ∧
  ¬ pause_gates_draw (w_paused 4).
Proof.
  assert (∃ w', draw (w_paused 4) = Ok tt w' ∧ drawFrames (w_paused 4) w' = 1)
    as Hdraw.
  { eexists. split; vm_compute; reflexivity. }
  split_and!; [vm_compute; reflexivity.. | exact Hdraw |].
  intros Hspec. destruct Hdraw as (w' & Hrun & Hone).
  assert (m_active (painter (w_paused 4)) = false) as Hpaused
    by (vm_compute; reflexivity).
  specialize (Hspec Hpaused w' Hrun). rewrite Hone in Hspec. discriminate.
Qed.

(** C6, as the specification has it, fails: once the GL context is
    lost, with a frame ready and the handshake held, [swap] presents
    nothing, leaves the flag set, releases no handshake and does not start
    the timer again; nor does the expiry of the timer. *)
Lemma swap_without_valid_context_does_nothing :
  boot 4 3 true drawn_then_lost powered_off = Ok tt (w_context_lost 4) ∧
  gl_valid (gl (w_context_lost 4)) = false ∧
  m_frameReady (painter (w_context_lost 4)) = true ∧
  m_needsUnlock (painter (w_context_lost 4)) = true ∧
  swap (w_context_lost 4) = Ok tt (w_context_lost 4) ∧
  (∃ w', timeout (w_context_lost 4) = Ok tt w' ∧
         m_frameReady (painter w') = true ∧
         m_needsUnlock (painter w') = true ∧
         m_swapTimer (painter w') = false ∧
         new_calls (w_context_lost 4) w' = []) ∧
  ¬ swap_on_every_expiry (w_context_lost 4).
Proof.
  split_and!; [vm_compute; reflexivity..| |].
  - eexists. split_and!; vm_compute; reflexivity.
  - unfold swap_on_every_expiry. vm_compute. discriminate.
Qed.


(** C7, as the specification has it, fails: on a display that is
    drawing with one frame pending, the painter's [stop] completes, and a
    second [stop] calls the backend's [clear], the proxy's [reset] and
    [doneCurrent] again, so it is not a no-op. *)
Lemma second_stop_calls_the_backend_again :
  reachable 4 (w_one_pending 4) ∧
  stop (w_one_pending 4) = Ok tt (w_painter_stopped 4) ∧
  (∃ w2, stop (w_painter_stopped 4) = Ok tt w2 ∧
         map what (new_calls (w_painter_stopped 4) w2)
           = [ev_clear; ev_proxyReset; ev_doneCurrent]) ∧
  ¬ second_stop_is_noop (w_painter_stopped 4).
Proof.
  split_and!.
  - apply reachable_one_pending.
  - vm_compute. reflexivity.
  - eexists. split; vm_compute; reflexivity.
  - unfold second_stop_is_noop. vm_compute. discriminate.
Qed.

(** C4: the code takes a null entry for a buffer.  After a null frame
    and two frames the free pool is empty and the front of the queue is
    the null entry: [enqueue] of the next frame takes that entry as its
    buffer and faults in [memcpy], so that nothing is copied and nothing
    appended.  With a buffer in the free pool, or at the front of the
    queue, the same call does what the specification says. *)
Theorem enqueue_null_front_copies_nothing :
  reachable 4 (w_null_then_two 4) ∧
  isEmpty (m_free (painter (w_null_then_two 4))) = true ∧
  head (m_queue (painter (w_null_then_two 4))) = Some None ∧
  m_context (painter (w_null_then_two 4)) = Some (tiny false) ∧
  frame_fits 4 (tiny false) pixels = true ∧
  enqueue 4 (Some pixels) (w_null_then_two 4) = Fault NullDeref ∧
  ¬ takes_copies_appends 4 pixels (w_null_then_two 4) ∧
  takes_copies_appends 4 pixels (w_one_pending 4) ∧
  takes_copies_appends 4 pixels (w_both_pending 4).
Proof.
  split_and!; try (vm_compute; reflexivity).
  - apply (reachable_boot 4 powered_off 3 true null_then_two).
    + apply blank_powered_off.
    + vm_compute. reflexivity.
  - intros (w' & b & n & data & H & _). vm_compute in H. discriminate.
  - eexists _, 1, 8, pixels. split_and!; vm_compute; reflexivity.
  - eexists _, 2, 8, pixels. split_and!; vm_compute; reflexivity.
Qed.

(** C9: the code copies through a null pointer.  After a null frame
    and two frames, in a world the display can reach, the free pool is
    empty and the front of the queue is the null entry; [enqueue] of the
    next frame takes that entry as the destination of [memcpy], and so
    does [framePosted]. *)
Theorem enqueue_copies_through_null :
  boot 4 3 true null_then_two powered_off = Ok tt (w_null_then_two 4) ∧
  reachable 4 (w_null_then_two 4) ∧
  m_free (painter (w_null_then_two 4)) = [] ∧
  m_queue (painter (w_null_then_two 4)) = [None; Some 2; Some 1] ∧
  enqueue 4 (Some pixels) (w_null_then_two 4) = Fault NullDeref ∧
  framePosted 4 (Some pixels) (w_null_then_two 4) = Fault NullDeref.
Proof.
  split_and!; try (vm_compute; reflexivity).
  apply (reachable_boot 4 powered_off 3 true null_then_two).
  - apply blank_powered_off.
  - vm_compute. reflexivity.
Qed.

(** *** The statements with hypotheses, at concrete runs *)

(** The hypotheses of X16 are met with one frame pending (buffer 1 is
    free) and with both buffers pending (the pool is empty). *)
Lemma enqueue_with_buffer_copies_and_appends_witness :
  (∃ w', enqueue 4 (Some pixels) (w_one_pending 4) = Ok tt w' ∧
         m_free (painter w') = [] ∧
         m_queue (painter w') = m_queue (painter (w_one_pending 4)) ++ [Some 1] ∧
         mem w' = alter (λ old, take (frame_bytes 4 (tiny false)) pixels
                                  ++ drop (frame_bytes 4 (tiny false)) old)
                    1 (mem (w_one_pending 4)) ∧
         map what (new_calls (w_one_pending 4) w')
           = [ev_memcpy 1 (frame_bytes 4 (tiny false))]) ∧
  (∃ w', enqueue 4 (Some pixels) (w_both_pending 4) = Ok tt w' ∧
         m_free (painter w') = [] ∧
         m_queue (painter w') = [Some 1] ++ [Some 2] ∧
         mem w' = alter (λ old, take (frame_bytes 4 (tiny false)) pixels
                                  ++ drop (frame_bytes 4 (tiny false)) old)
                    2 (mem (w_both_pending 4)) ∧
         map what (new_calls (w_both_pending 4) w')
           = [ev_memcpy 2 (frame_bytes 4 (tiny false))]).
Proof.
  destruct (enqueue_with_buffer_copies_and_appends 4) as (_ & Hfree & Hqueue).
  split.
  - apply (Hfree (w_one_pending 4) pixels [] 1 (tiny false)); vm_compute; reflexivity.
  - apply (Hqueue (w_both_pending 4) pixels 2 [Some 1] (tiny false));
      vm_compute; reflexivity.
Defined.

(** The hypothesis of C5 is met with a null entry at the front of the
    queue. *)
Lemma null_frame_is_silent_witness :
  m_queue (painter (w_null_pending 4)) = [None] ∧
  ∃ w', dequeue (w_null_pending 4) = Ok tt w' ∧
        m_queue (painter w') = [] ∧
        m_free (painter w') = m_free (painter (w_null_pending 4)) ∧
        mem w' = mem (w_null_pending 4) ∧
        new_calls (w_null_pending 4) w' = [].
Proof.
  split; [vm_compute; reflexivity|].
  apply (proj2 (null_frame_is_silent 4) (w_null_pending 4) []).
  vm_compute. reflexivity.
Defined.


(** The hypothesis of C2, as amended, is met with one frame pending. *)
Lemma ownership_at_calls_witness :
  (∀ backing w' c b n,
     enqueue 4 backing (w_one_pending 4) = Ok tt w' →
     c ∈ new_calls (w_one_pending 4) w' → what c = ev_memcpy b n →
     (b ∉ free_then c) ∧ (Some b ∉ queue_then c)) ∧
  (∀ w' c b,
     dequeue (w_one_pending 4) = Ok tt w' →
     c ∈ new_calls (w_one_pending 4) w' → what c = ev_postFrame b →
     (b ∉ free_then c) ∧ (Some b ∉ queue_then c)) ∧
  (∀ w' c b,
     dequeueAll (w_one_pending 4) = Ok tt w' →
     c ∈ new_calls (w_one_pending 4) w' → what c = ev_postFrame b →
     (b ∈ free_then c) ∧ (Some b ∉ queue_then c)).
Proof.
  apply (ownership_at_calls 4 (w_one_pending 4)).
  apply reachable_one_pending.
Defined.

(** The hypothesis of C10 is met on a display that is drawing. *)
Lemma startDrawing_while_running_witness :
  d_drawThread (display (w_one_pending 4)) = Some PainterThread ∧
  startDrawing (Some (tiny true)) (w_one_pending 4) = Ok tt (w_one_pending 4).
Proof.
  split; [vm_compute; reflexivity|].
  apply (startDrawing_while_running (w_one_pending 4) (Some (tiny true)) PainterThread).
  vm_compute. reflexivity.
Defined.

(** The hypotheses of C7 are met on a display that is drawing with one
    frame pending. *)
Lemma stop_is_idempotent_witness :
  (stopDrawing (w_one_pending 4) = Ok tt (w_stopped 4) ∧
   stopDrawing (w_stopped 4) = Ok tt (w_stopped 4)) ∧
  (stop (w_one_pending 4) = Ok tt (w_painter_stopped 4) ∧
   ∃ w2, stop (w_painter_stopped 4) = Ok tt w2 ∧
         w_painter_stopped 4 = set_trace (trace (w_painter_stopped 4)) w2 ∧
         map what (new_calls (w_painter_stopped 4) w2)
           = [ev_clear; ev_proxyReset; ev_doneCurrent]).
Proof.
  destruct stop_is_idempotent as [Hwidget Hpainter].
  split; (split; [vm_compute; reflexivity|]).
  - apply (Hwidget (w_one_pending 4)). vm_compute. reflexivity.
  - apply (Hpainter (w_one_pending 4)). vm_compute. reflexivity.
Defined.

(** The hypotheses of C6, as amended, are met after a frame has been
    drawn: once with a context that is not valid, once with a valid one,
    a frame ready and the handshake held. *)
Lemma swap_presents_releases_reschedules_witness :
  (gl_valid (gl (w_context_lost 4)) = false ∧
   swap (w_context_lost 4) = Ok tt (w_context_lost 4)) ∧
  (gl_valid (gl (w_frame_drawn 4)) = true ∧
   m_frameReady (painter (w_frame_drawn 4)) = true ∧
   m_needsUnlock (painter (w_frame_drawn 4)) = true ∧
   swap (w_frame_drawn 4) = Ok tt (rescheduled (released (presented (w_frame_drawn 4))))).
Proof.
  destruct swap_presents_releases_reschedules as [Hinvalid Hvalid].
  split.
  - split; [vm_compute; reflexivity|].
    apply (Hinvalid (w_context_lost 4)). vm_compute. reflexivity.
  - split_and!; [vm_compute; reflexivity..|].
    apply (Hvalid (w_frame_drawn 4)).
    + vm_compute. reflexivity.
    + intros _. exists (tiny true). vm_compute. reflexivity.
Defined.

(** The hypotheses of C3, as amended, are met on a paused display with
    one frame pending. *)
Lemma paused_draw_still_draws_witness :
  (m_active (painter (w_paused 4)) = false ∧
   ∃ w', draw (w_paused 4) = Ok tt w' ∧
         drawFrames (w_paused 4) w' = 1 ∧
         m_queue (painter w') = [] ∧
         m_frameReady (painter w') = true ∧
         m_active (painter w') = false) ∧
  (enqueue 4 (Some pixels) (w_paused 4) = Ok tt (w_paused_more 4) ∧
   pool (w_paused_more 4) ≡ₚ pool (w_paused 4) ∧
   m_active (painter (w_paused_more 4)) = false).
Proof.
  destruct (paused_draw_still_draws 4) as (_ & Hdraw & Henqueue).
  split.
  - split; [vm_compute; reflexivity|].
    apply (Hdraw (w_paused 4) (Some 2) [] (tiny false)); vm_compute; reflexivity.
  - split; [vm_compute; reflexivity|].
    apply (Henqueue (w_paused 4) (Some pixels) (w_paused_more 4));
      vm_compute; reflexivity.
Defined.

(** *** The further properties, at concrete runs *)

Lemma reachable_frame_drawn : reachable 4 (w_frame_drawn 4).
Proof.
  apply (reachable_boot 4 powered_off 3 true frame_drawn).
  - apply blank_powered_off.
  - vm_compute. reflexivity.
Qed.

(** X1 both ways: with a free buffer [enqueue] succeeds; with an empty
    free pool and a null entry at the front of the queue it does not. *)
Lemma enqueue_succeeds_iff_witness :
  (∃ w', enqueue 4 (Some pixels) (w_one_pending 4) = Ok tt w') ∧
  ¬ (∃ w', enqueue 4 (Some pixels) (w_null_then_two 4) = Ok tt w') ∧
  ¬ (∃ w', enqueue 4 (Some [x01]) (w_one_pending 4) = Ok tt w') ∧
  ¬ (∃ w', enqueue 4 (Some pixels) (w_tall 4) = Ok tt w') ∧
  ¬ (∃ w', enqueue 4 (Some pixels) (w_wide 4) = Ok tt w').
Proof.
  split_and!.
  - apply (proj2 (enqueue_succeeds_iff 4 (w_one_pending 4) (Some pixels))).
    right. exists pixels, (tiny false). split_and!; try (vm_compute; reflexivity).
    left. vm_compute. discriminate.
  - intros H.
    apply (proj1 (enqueue_succeeds_iff 4 (w_null_then_two 4) (Some pixels))) in H.
    destruct H as [H|(src & c & _ & _ & _ & [H|(b & q & H)])].
    + discriminate.
    + apply H. vm_compute. reflexivity.
    + vm_compute in H. discriminate.
  - intros H.
    apply (proj1 (enqueue_succeeds_iff 4 (w_one_pending 4) (Some [x01]))) in H.
    destruct H as [H|(src & c & Hsrc & Hc & Hfit & _)]; [discriminate|].
    injection Hsrc as <-. vm_compute in Hc. injection Hc as <-.
    vm_compute in Hfit. discriminate.
  - intros H.
    apply (proj1 (enqueue_succeeds_iff 4 (w_tall 4) (Some pixels))) in H.
    destruct H as [H|(src & c & Hsrc & Hc & Hfit & _)]; [discriminate|].
    injection Hsrc as <-. vm_compute in Hc. injection Hc as <-.
    vm_compute in Hfit. discriminate.
  - intros H.
    apply (proj1 (enqueue_succeeds_iff 4 (w_wide 4) (Some pixels))) in H.
    destruct H as [H|(src & c & Hsrc & Hc & Hfit & _)]; [discriminate|].
    injection Hsrc as <-. vm_compute in Hc. injection Hc as <-.
    vm_compute in Hfit. discriminate.
Defined.

(** The hypotheses of X2 are met right after [startDrawing]. *)
Lemma frames_come_out_in_order_witness :
  ∃ w', run_ops 4 [p_enqueue (Some pixels); p_enqueue (Some pixels'); p_dequeue; p_dequeue]
          (w_started 4) = Ok tt w' ∧
        posted_buffers (new_calls (w_started 4) w') = [2; 1] ∧
        mem w' !! 2 = Some (take (frame_bytes 4 (tiny false)) pixels
                              ++ drop (frame_bytes 4 (tiny false)) []) ∧
        mem w' !! 1 = Some (take (frame_bytes 4 (tiny false)) pixels'
                              ++ drop (frame_bytes 4 (tiny false)) []) ∧
        m_queue (painter w') = [] ∧
        m_free (painter w') = [] ++ [2; 1].
Proof.
  apply (frames_come_out_in_order 4 (w_started 4) pixels pixels' [] 1 2 (tiny false) [] []);
    try (vm_compute; reflexivity).
  discriminate.
Defined.

(** The hypotheses of X4 are met with one frame pending. *)
Lemma draw_takes_one_frame_witness :
  ∃ w', draw (w_one_pending 4) = Ok tt w' ∧
        m_queue (painter w') = [] ∧
        m_free (painter w') = m_free (painter (w_one_pending 4)) ++ buffer_of (Some 2) ∧
        posted_buffers (new_calls (w_one_pending 4) w') = buffer_of (Some 2) ∧
        drawFrames (w_one_pending 4) w' = 1 ∧
        count_calls ev_waitFrameStart (new_calls (w_one_pending 4) w') = 1 ∧
        count_calls ev_waitFrameEnd (new_calls (w_one_pending 4) w')
          = (if videoFrameWait (tiny false) then 0 else 1) ∧
        m_needsUnlock (painter w') = videoFrameWait (tiny false) ∧
        m_frameReady (painter w') = true ∧
        m_swapTimer (painter w') = true.
Proof.
  apply (draw_takes_one_frame (w_one_pending 4) (Some 2) [] (tiny false));
    vm_compute; reflexivity.
Defined.

(** The hypotheses of X5 are met after a frame was drawn with the
    handshake held and another frame was enqueued. *)
Lemma held_draw_is_deferred_witness :
  draw (w_started 4) = Ok tt (w_started 4) ∧
  ∃ w1 w2 w3,
    draw (w_held 4) = Ok tt w1 ∧ w1 = set_pending [s_draw] (w_held 4) ∧
    swap w1 = Ok tt w2 ∧
    m_needsUnlock (painter w2) = false ∧
    count_calls ev_waitFrameEnd (new_calls w1 w2) = 1 ∧
    dispatch w2 = Ok tt w3 ∧
    drawFrames w2 w3 = 1 ∧
    m_queue (painter w3) = [].
Proof.
  destruct held_draw_is_deferred as [Hempty Hheld].
  split.
  - apply (Hempty (w_started 4)). vm_compute. reflexivity.
  - apply (Hheld (w_held 4) (Some 2) [] (tiny true)); vm_compute; reflexivity.
Defined.

(** The hypotheses of X7 are met after a frame was drawn with the
    handshake held. *)
Lemma composed_frame_is_presented_once_witness :
  ∃ w1 w2 w3,
    forceDraw (w_frame_drawn 4) = Ok tt w1 ∧
    timeout w1 = Ok tt w2 ∧
    count_calls ev_swapBuffers (new_calls w1 w2) = 1 ∧
    m_frameReady (painter w2) = false ∧
    timeout w2 = Ok tt w3 ∧
    count_calls ev_swapBuffers (new_calls w2 w3) = 0.
Proof.
  apply (composed_frame_is_presented_once (w_frame_drawn 4)).
  - vm_compute. reflexivity.
  - intros _. exists (tiny true). vm_compute. reflexivity.
Defined.

(** The hypothesis of X8 is met after a frame was drawn with the
    handshake held: one start, no end, one handshake held. *)
Lemma handshake_stays_balanced_witness :
  m_needsUnlock (painter (w_frame_drawn 4)) = true ∧
  count_calls ev_waitFrameStart (trace (w_frame_drawn 4)) =
  count_calls ev_waitFrameEnd (trace (w_frame_drawn 4))
    + (if m_needsUnlock (painter (w_frame_drawn 4)) then 1 else 0).
Proof.
  split; [vm_compute; reflexivity|].
  apply (handshake_stays_balanced 4 (w_frame_drawn 4)).
  apply reachable_frame_drawn.
Defined.

(** The hypotheses of X9 are met after a frame was drawn, right after
    the constructor, and on a display that is drawing with one frame
    pending. *)
Lemma context_painter_proxy_share_a_thread_witness :
  (gl_thread (gl (w_frame_drawn 4)) = p_thread (painter (w_frame_drawn 4)) ∧
   proxy_thread (w_frame_drawn 4) = p_thread (painter (w_frame_drawn 4))) ∧
  (threads (w_built 4) = (GuiThread, GuiThread, GuiThread) ∧
   startDrawing (Some (tiny false)) (w_built 4) = Ok tt (w_started 4) ∧
   threads (w_started 4) = (PainterThread, PainterThread, PainterThread)) ∧
  (stop (w_one_pending 4) = Ok tt (w_painter_stopped 4) ∧
   threads (w_painter_stopped 4) = (GuiThread, GuiThread, GuiThread)) ∧
  (stopDrawing (w_one_pending 4) = Ok tt (w_stopped 4) ∧
   threads (w_stopped 4) = (GuiThread, GuiThread, GuiThread)) ∧
  (startDrawing (Some (tiny true)) (w_one_pending 4) = Ok tt (w_one_pending 4) ∧
   threads (w_one_pending 4) = threads (w_one_pending 4)) ∧
  (stopDrawing (w_stopped 4) = Ok tt (w_stopped 4) ∧
   threads (w_stopped 4) = threads (w_stopped 4)) ∧
  (run_op 4 (o_framePosted (Some pixels)) (w_started 4) = Ok tt (w_one_pending 4) ∧
   threads (w_one_pending 4) = threads (w_started 4)).
Proof.
  destruct (context_painter_proxy_share_a_thread 4)
    as (Hsame & Hstart & Hstop & HstopDrawing & Hrunning & Hstopped & Hother).
  split; [|split; [|split; [|split; [|split; [|split]]]]].
  - exact (Hsame (w_frame_drawn 4) reachable_frame_drawn).
  - split; [vm_compute; reflexivity|].
    split; [vm_compute; reflexivity|].
    refine (Hstart (w_built 4) (Some (tiny false)) (w_started 4) _ _);
      vm_compute; reflexivity.
  - split; [vm_compute; reflexivity|].
    refine (Hstop (w_one_pending 4) (w_painter_stopped 4) _). vm_compute. reflexivity.
  - split; [vm_compute; reflexivity|].
    refine (HstopDrawing (w_one_pending 4) PainterThread (w_stopped 4) _ _);
      vm_compute; reflexivity.
  - split; [vm_compute; reflexivity|].
    refine (Hrunning (w_one_pending 4) (Some (tiny true)) PainterThread (w_one_pending 4) _ _);
      vm_compute; reflexivity.
  - split; [vm_compute; reflexivity|].
    refine (Hstopped (w_stopped 4) (w_stopped 4) _ _); vm_compute; reflexivity.
  - split; [vm_compute; reflexivity|].
    refine (Hother (o_framePosted (Some pixels)) (w_started 4) (w_one_pending 4) _ _);
      vm_compute; reflexivity.
Defined.

(** The hypotheses of X10 are met right after the constructor. *)
Lemma startDrawing_activates_witness :
  ∃ w', startDrawing (Some (tiny false)) (w_built 4) = Ok tt w' ∧
        d_drawThread (display w') = Some PainterThread ∧
        d_isDrawing (display w') = true ∧
        d_context (display w') = Some (tiny false) ∧
        m_context (painter w') = Some (tiny false) ∧
        m_active (painter w') = true ∧
        m_started (painter w') = true ∧
        m_size (painter w') = d_size (display (w_built 4)) ∧
        vb_lockAspectRatio (backend w') = d_lockAspectRatio (display (w_built 4)) ∧
        vb_lockIntegerScaling (backend w') = d_lockIntegerScaling (display (w_built 4)) ∧
        vb_filter (backend w') = d_filter (display (w_built 4)) ∧
        gl_current (gl w') = true ∧
        gl_thread (gl w') = PainterThread ∧
        p_thread (painter w') = PainterThread ∧
        proxy_thread w' = PainterThread ∧
        pending w' = [] ∧
        drawFrames (w_built 4) w' = 0 ∧
        m_queue (painter w') = m_queue (painter (w_built 4)) ∧
        m_free (painter w') = m_free (painter (w_built 4)).
Proof.
  apply (startDrawing_activates (w_built 4) (Some (tiny false)));
    vm_compute; reflexivity.
Defined.

(** The hypotheses of X11 are met on a drawing display with one frame
    pending. *)
Lemma stopDrawing_gives_everything_back_witness :
  m_queue (painter (w_stopped 4)) = [] ∧
  m_free (painter (w_stopped 4)) ≡ₚ pool (w_one_pending 4) ∧
  m_active (painter (w_stopped 4)) = false ∧
  m_started (painter (w_stopped 4)) = false ∧
  m_swapTimer (painter (w_stopped 4)) = false ∧
  m_context (painter (w_stopped 4)) = None ∧
  d_context (display (w_stopped 4)) = None ∧
  d_drawThread (display (w_stopped 4)) = None ∧
  d_isDrawing (display (w_stopped 4)) = false ∧
  gl_current (gl (w_stopped 4)) = true ∧
  gl_thread (gl (w_stopped 4)) = GuiThread ∧
  p_thread (painter (w_stopped 4)) = GuiThread ∧
  proxy_thread (w_stopped 4) = GuiThread.
Proof.
  apply (stopDrawing_gives_everything_back (w_one_pending 4) PainterThread (w_stopped 4));
    vm_compute; reflexivity.
Defined.

(** The hypothesis of X12 is met after [stopDrawing] on a drawing
    display. *)
Lemma calls_after_stopDrawing_are_dropped_witness :
  (∀ frame, framePosted 4 frame (w_stopped 4) = Ok tt (w_stopped 4)) ∧
  DisplayGL_forceDraw (w_stopped 4) = Ok tt (w_stopped 4) ∧
  pauseDrawing (w_stopped 4) = Ok tt (w_stopped 4) ∧
  unpauseDrawing (w_stopped 4) = Ok tt (w_stopped 4) ∧
  DisplayGL_resizeContext (w_stopped 4) = Ok tt (w_stopped 4) ∧
  resizePainter (w_stopped 4) = Ok tt (w_stopped 4).
Proof.
  apply (calls_after_stopDrawing_are_dropped 4 (w_one_pending 4) (w_stopped 4)).
  vm_compute. reflexivity.
Defined.


(** The hypotheses of X14 are met with both buffers pending. *)
Lemma oldest_frame_is_dropped_witness :
  ∃ w', run_ops 4 [p_enqueue (Some pixels'); p_dequeue; p_dequeue] (w_both_pending 4)
          = Ok tt w' ∧
        posted_buffers (new_calls (w_both_pending 4) w') = [1; 2] ∧
        mem w' !! 2 = Some (take (frame_bytes 4 (tiny false)) pixels'
                              ++ drop (frame_bytes 4 (tiny false)) pixels) ∧
        mem w' !! 1 = mem (w_both_pending 4) !! 1 ∧
        m_queue (painter w') = [] ∧
        m_free (painter w') = [1; 2].
Proof.
  apply (oldest_frame_is_dropped 4 (w_both_pending 4) pixels' 2 1 (tiny false) pixels);
    try (vm_compute; reflexivity).
  discriminate.
Defined.

